(** * Story agent: output parser, marker sanitizer and request handlers

    A shallow embedding of [api/main.py].  The functions embedded are
    [call_gemini], [parse_gemini_output], [strip_markers] and the two
    routes [generate] and [revise], together with the [str] methods they
    call ([strip], [lower], [startswith], [splitlines], [split], [replace]
    and the [in] operator).

    Text is a list of characters.  A character is a code point below 256
    (the Latin-1 range of a Python [str]); on that range the character
    classes below are the ones CPython uses. *)

From Stdlib Require Import List Ascii String Arith Bool Lia.
From stdpp Require Import base strings gmap.
Import ListNotations.

Local Open Scope list_scope.
Local Open Scope bool_scope.

(** ** Text *)

Definition str := list ascii.

(** A literal of the source. *)
Definition lit (s : string) : str := list_ascii_of_string s.

Definition code (c : ascii) : nat := nat_of_ascii c.

Definition between (lo hi n : nat) : bool := (lo <=? n) && (n <=? hi).

(** [str.isspace] for one character: what [strip()] removes. *)
Definition is_space (c : ascii) : bool :=
  let n := code c in
  between 9 13 n || between 28 32 n || (n =? 133) || (n =? 160).

(** The line boundaries of [str.splitlines]. *)
Definition is_linebreak (c : ascii) : bool :=
  let n := code c in
  between 10 13 n || between 28 30 n || (n =? 133).

(** [str.lower] for one character. *)
Definition lower_char (c : ascii) : ascii :=
  let n := code c in
  if between 65 90 n || (between 192 222 n && negb (n =? 215))
  then ascii_of_nat (n + 32)
  else c.

Definition str_lower (s : str) : str := map lower_char s.

Definition LF : ascii := ascii_of_nat 10.
Definition CR : ascii := ascii_of_nat 13.
Definition colon : ascii := ascii_of_nat 58.

(** [s.startswith(p)] *)
Fixpoint str_startswith (s p : str) {struct p} : bool :=
  match p, s with
  | [], _ => true
  | _ :: _, [] => false
  | a :: p', b :: s' => Ascii.eqb a b && str_startswith s' p'
  end.

(** [p in s] *)
Fixpoint str_contains (p s : str) : bool :=
  str_startswith s p ||
  match s with
  | [] => false
  | _ :: s' => str_contains p s'
  end.

(** [s.lstrip()], [s.rstrip()] and [s.strip()] *)
Fixpoint str_lstrip (s : str) : str :=
  match s with
  | [] => []
  | c :: s' => if is_space c then str_lstrip s' else s
  end.

Fixpoint str_rstrip (s : str) : str :=
  match s with
  | [] => []
  | c :: s' =>
      match str_rstrip s' with
      | [] => if is_space c then [] else [c]
      | r => c :: r
      end
  end.

Definition str_strip (s : str) : str := str_lstrip (str_rstrip s).

(** [s.replace(old, new)]: the occurrences of [old] are found from left to
    right and do not overlap.  [skip] counts the characters of a matched
    occurrence that are still to be passed over. *)
Fixpoint replace_from (old new : str) (skip : nat) (s : str) : str :=
  match s with
  | [] => []
  | c :: s' =>
      match skip with
      | S k => replace_from old new k s'
      | O =>
          if str_startswith s old
          then new ++ replace_from old new (length old - 1) s'
          else c :: replace_from old new 0 s'
      end
  end.

Definition str_replace (old new s : str) : str :=
  match old with
  | [] => new ++ flat_map (fun c => c :: new) s
  | _ :: _ => replace_from old new 0 s
  end.

(** [s.splitlines()]: [cur] is the line being read, [after_cr] says that
    the previous character was a carriage return, so that a line feed
    that follows belongs to the same boundary. *)
Fixpoint splitlines_from (after_cr : bool) (cur : str) (s : str) : list str :=
  match s with
  | [] => match cur with [] => [] | _ :: _ => [cur] end
  | c :: s' =>
      if after_cr && Ascii.eqb c LF then splitlines_from false cur s'
      else if is_linebreak c then cur :: splitlines_from (Ascii.eqb c CR) [] s'
      else splitlines_from false (cur ++ [c]) s'
  end.

Definition str_splitlines (s : str) : list str := splitlines_from false [] s.

(** [s.split(":", 1)]: one piece when [s] has no colon, two otherwise. *)
Fixpoint split_colon1 (s : str) : list str :=
  match s with
  | [] => [[]]
  | c :: s' =>
      if Ascii.eqb c colon then [[]; s']
      else match split_colon1 s' with
           | a :: rest => (c :: a) :: rest
           | [] => [[c]]
           end
  end.

(** ** Exceptions *)

Record exn := Exn { exn_type : str; exn_message : str }.

Inductive result (A : Type) : Type :=
| Ok (a : A)
| Raise (e : exn).
Arguments Ok {A} a.
Arguments Raise {A} e.

#[global] Instance result_ret : MRet result := fun A a => Ok a.

#[global] Instance result_bind : MBind result := fun A B k m =>
  match m with
  | Ok a => k a
  | Raise e => Raise e
  end.

(** [l[1]] of a list *)
Definition index1 {A} (l : list A) : result A :=
  match nth_error l 1 with
  | Some x => Ok x
  | None => Raise (Exn (lit "IndexError") (lit "list index out of range"))
  end.

(** ** The marker sanitizer *)

Definition TWIST1 : str := lit "[TWIST1]".
Definition TWIST2 : str := lit "[TWIST2]".
Definition TWIST3 : str := lit "[TWIST3]".
Definition TWIST4 : str := lit "[TWIST4]".

Definition strip_markers (story : str) : str :=
  str_strip
    (str_replace TWIST4 []
       (str_replace TWIST3 []
          (str_replace TWIST2 []
             (str_replace TWIST1 [] story)))).

(** Some marker token of the vocabulary occurs in [s]. *)
Definition contains_marker (s : str) : bool :=
  str_contains TWIST1 s || str_contains TWIST2 s ||
  str_contains TWIST3 s || str_contains TWIST4 s.

(** ** The output parser *)

Inductive parse_mode := ModeNone | ModeStory.

Definition is_title_line (ln : str) : bool :=
  str_startswith (str_lower (str_strip ln)) (lit "title:").

Definition is_story_line (ln : str) : bool :=
  str_startswith (str_lower (str_strip ln)) (lit "story:").

(** The [for ln in lines] loop, with the three variables it updates. *)
Fixpoint parse_lines (lines : list str) (title story : str) (mode : parse_mode)
  : result (str * str) :=
  match lines with
  | [] => Ok (title, str_strip story)
  | ln :: rest =>
      if is_title_line ln then
        r ← index1 (split_colon1 ln);
        parse_lines rest (str_strip r) story ModeNone
      else if is_story_line ln then
        parse_lines rest title story ModeStory
      else
        match mode with
        | ModeStory => parse_lines rest title (story ++ ln ++ [LF]) mode
        | ModeNone => parse_lines rest title story mode
        end
  end.

Definition parse_gemini_output (text : str) : result (str * str) :=
  parse_lines (str_splitlines text) [] [] ModeNone.

(** ** The model client *)

(** What [model.generate_content(prompt)] followed by [resp.text] gives:
    a text (or [None]), or an exception [e] with [str(e) = error_msg]. *)
Inductive model_reply :=
| Reply (text : option str)
| Failure (error_msg : str).

Definition quota_message : str :=
  lit "API quota exceeded. Please check your Google AI Studio quota limits or try again later.".
Definition permission_message : str :=
  lit "API key doesn't have permission. Please check your API key in Google AI Studio.".
Definition invalid_message : str :=
  lit "Invalid API request. Please check your API key configuration.".

(** The message of the exception that [call_gemini] raises for [error_msg]. *)
Definition failure_message (error_msg : str) : str :=
  if str_contains (lit "RATE_LIMIT_EXCEEDED") error_msg || str_contains (lit "429") error_msg
  then quota_message
  else if str_contains (lit "PERMISSION_DENIED") error_msg || str_contains (lit "403") error_msg
  then permission_message
  else if str_contains (lit "INVALID_ARGUMENT") error_msg || str_contains (lit "400") error_msg
  then invalid_message
  else lit "Gemini API error: " ++ error_msg.

Definition Exception (message : str) : exn := Exn (lit "Exception") message.

(** ** Responses *)

(** A JSON object whose values are strings. *)
Record response := Response { status_code : nat; body : gmap string str }.

Definition JSONResponse (content : gmap string str) (status : nat) : response :=
  Response status content.

Definition story_dict (title story_raw story_clean : str) : gmap string str :=
  <["title" := title]> (<["story_raw" := story_raw]> {["story_clean" := story_clean]}).

Definition error_dict (message : str) : gmap string str := {["error" := message]}.

(** [not s] *)
Definition falsy (s : str) : bool :=
  match s with [] => true | _ :: _ => false end.

(** ** The routes *)

Record GenerateRequest := { inspiration : str; tone : str }.
Record ReviseRequest := { feedback : str; original_story : str }.

Section Routes.

(** [story_prompt] and [revision_prompt] are the two prompt templates and
    [model] is the external service: a route only passes the prompt on
    and reads the reply, so they are left open here. *)
Variable story_prompt : str -> str -> str.
Variable revision_prompt : str -> str -> str.
Variable model : str -> model_reply.

Definition call_gemini (prompt : str) : result str :=
  match model prompt with
  | Reply text => Ok (str_strip (default [] text))
  | Failure error_msg => Raise (Exception (failure_message error_msg))
  end.

(** [except Exception as e] at the end of a route. *)
Definition handle (r : result response) : response :=
  match r with
  | Ok resp => resp
  | Raise e =>
      JSONResponse (error_dict (exn_type e ++ lit ": " ++ exn_message e)) 500
  end.

Definition generate (req : GenerateRequest) : response :=
  handle (
    let prompt := story_prompt (inspiration req) (tone req) in
    out ← call_gemini prompt;
    if falsy out then
      Ok (JSONResponse (error_dict (lit "Empty response from model")) 500)
    else
      '(title, story_raw) ← parse_gemini_output out;
      let story_raw := if falsy story_raw then out else story_raw in
      let story_clean := strip_markers story_raw in
      Ok (Response 200 (story_dict title story_raw story_clean))).

Definition revise (req : ReviseRequest) : response :=
  handle (
    let prompt := revision_prompt (original_story req) (feedback req) in
    out ← call_gemini prompt;
    if falsy out then
      Ok (JSONResponse (error_dict (lit "Empty response from model")) 500)
    else
      '(title, story_raw) ← parse_gemini_output out;
      let story_raw := if falsy story_raw then out else story_raw in
      let story_clean := strip_markers story_raw in
      Ok (Response 200 (story_dict title story_raw story_clean))).

End Routes.

(** ** Marker tokens laid out in a text *)

Inductive marker := M1 | M2 | M3 | M4.

Definition marker_text (k : marker) : str :=
  match k with
  | M1 => TWIST1
  | M2 => TWIST2
  | M3 => TWIST3
  | M4 => TWIST4
  end.

(** A text seen as its characters with marker tokens put between them. *)
Inductive piece :=
| Tok (k : marker)
| Chr (c : ascii).

(** The text with its markers. *)
Fixpoint with_markers (ps : list piece) : str :=
  match ps with
  | [] => []
  | Tok k :: ps' => marker_text k ++ with_markers ps'
  | Chr c :: ps' => c :: with_markers ps'
  end.

(** The text the markers were put into. *)
Fixpoint without_markers (ps : list piece) : str :=
  match ps with
  | [] => []
  | Tok _ :: ps' => without_markers ps'
  | Chr c :: ps' => c :: without_markers ps'
  end.

Definition is_tok (k : marker) (p : piece) : bool :=
  match p, k with
  | Tok M1, M1 | Tok M2, M2 | Tok M3, M3 | Tok M4, M4 => true
  | _, _ => false
  end.

Definition drop_tok (k : marker) (ps : list piece) : list piece :=
  List.filter (fun p => negb (is_tok k p)) ps.

(** ** Lines put back together *)

(** What the loop of the parser accumulates for the lines [ls]. *)
Definition unlines (ls : list str) : str :=
  flat_map (fun ln => ln ++ [LF]) ls.

(** What a [title:] line sets the title to. *)
Definition title_of (ln : str) : str :=
  str_strip (nth 1 (split_colon1 ln) []).

(** The title the loop ends with: that of the last [title:] line. *)
Fixpoint last_title (lines : list str) (title : str) : str :=
  match lines with
  | [] => title
  | ln :: rest =>
      if is_title_line ln
      then last_title rest (title_of ln)
      else last_title rest title
  end.

Definition no_linebreak (s : str) : bool :=
  forallb (fun c => negb (is_linebreak c)) s.

(** The only line boundary in [s] is the line feed. *)
Definition only_lf_breaks (s : str) : bool :=
  forallb (fun c => negb (is_linebreak c) || Ascii.eqb c LF) s.

Definition no_space (t : str) : bool :=
  forallb (fun a => negb (is_space a)) t.

Definition open_bracket : ascii := ascii_of_nat 91.

Definition no_bracket (p : str) : bool :=
  forallb (fun a => negb (Ascii.eqb a open_bracket)) p.

(** A line of the body that the loop appends as it is. *)
Definition is_body_line (ln : str) : bool :=
  negb (is_title_line ln || is_story_line ln).

(** [Title: X\n\nStory:\nY] *)
Definition formatted (X Y : str) : str :=
  lit "Title: " ++ X ++ [LF; LF] ++ lit "Story:" ++ [LF] ++ Y.

(** ** Payloads *)

Definition success_payload (r : response) : Prop :=
  status_code r = 200 /\
  dom (body r) = ({["title"; "story_raw"; "story_clean"]} : gset string).

Definition error_payload (r : response) : Prop :=
  status_code r = 500 /\ dom (body r) = ({["error"]} : gset string).

Definition empty_response : response :=
  JSONResponse (error_dict (lit "Empty response from model")) 500.

(** What a route answers once [call_gemini] has returned [out]. *)
Definition answer (out : str) : response :=
  if falsy out then empty_response
  else
    match parse_gemini_output out with
    | Ok (title, story_raw) =>
        let story_raw := if falsy story_raw then out else story_raw in
        Response 200 (story_dict title story_raw (strip_markers story_raw))
    | Raise e =>
        Response 500 (error_dict (exn_type e ++ lit ": " ++ exn_message e))
    end.

(** What a route answers to the reply of the model. *)
Definition respond (reply : model_reply) : response :=
  match reply with
  | Failure error_msg =>
      Response 500 (error_dict (lit "Exception: " ++ failure_message error_msg))
  | Reply text => answer (str_strip (default [] text))
  end.

(** ** Sample inputs *)

Definition no_prompt : str -> str -> str := fun _ _ => [].
Definition replies (text : str) : str -> model_reply := fun _ => Reply (Some text).
Definition fails (error_msg : str) : str -> model_reply := fun _ => Failure error_msg.
Definition a_generate_request : GenerateRequest :=
  {| inspiration := lit "a lighthouse"; tone := lit "neutral" |}.
Definition a_revise_request : ReviseRequest :=
  {| feedback := lit "make the ending brighter"; original_story := lit "[TWIST1] Once." |}.

(** ** What the loop of the parser keeps *)

(** Lines put together with the boundary [sep] after each. *)
Definition unlines_with (sep : str) (ls : list str) : str :=
  flat_map (fun ln => ln ++ sep) ls.

(** The lines that the loop appends to the body, in order, when it is
    entered in mode [mode]. *)
Fixpoint captured (lines : list str) (mode : parse_mode) : list str :=
  match lines with
  | [] => []
  | ln :: rest =>
      if is_title_line ln then captured rest ModeNone
      else if is_story_line ln then captured rest ModeStory
      else
        match mode with
        | ModeStory => ln :: captured rest mode
        | ModeNone => captured rest mode
        end
  end.

(** The mode the loop is in after [lines], when entered in mode [mode]. *)
Fixpoint mode_after (lines : list str) (mode : parse_mode) : parse_mode :=
  match lines with
  | [] => mode
  | ln :: rest =>
      if is_title_line ln then mode_after rest ModeNone
      else if is_story_line ln then mode_after rest ModeStory
      else mode_after rest mode
  end.

(** [l] is the line [ln] without some of the white space at its ends. *)
Definition trimmed_from (ln l : str) : Prop :=
  exists w1 w2,
    ln = w1 ++ l ++ w2 /\
    forallb is_space w1 = true /\ forallb is_space w2 = true.

(** * The example of the specification *)

Example parse_example :
  parse_gemini_output
    (formatted (lit "The Last Light")
       (lit "[TWIST1] She opened the door." ++ [LF] ++ lit "It was raining."))
  = Ok (lit "The Last Light",
        lit "[TWIST1] She opened the door." ++ [LF] ++ lit "It was raining.").
Proof. vm_compute. reflexivity. Qed.

Example strip_markers_example :
  strip_markers (lit "[TWIST1] She opened the door." ++ [LF] ++ lit "It was raining.")
  = lit "She opened the door." ++ [LF] ++ lit "It was raining.".
Proof. vm_compute. reflexivity. Qed.

Example splitlines_example :
  str_splitlines (lit "a" ++ [CR; LF; LF; CR] ++ lit "b" ++ [LF]) =
  [lit "a"; []; []; lit "b"].
Proof. reflexivity. Qed.

(** * Characters *)

Ltac each_char c :=
  destruct c as [[|] [|] [|] [|] [|] [|] [|] [|]]; vm_compute;
  try reflexivity; try discriminate; auto.

Lemma linebreak_is_space c : is_linebreak c = true -> is_space c = true.
Proof. each_char c. Qed.

Lemma lower_char_colon c : lower_char c = colon -> c = colon.
Proof. each_char c. Qed.

Lemma ascii_eqb_true a b : Ascii.eqb a b = true -> a = b.
Proof. apply Ascii.eqb_eq. Qed.

(** * Prefixes and occurrences *)

Lemma startswith_nil s : str_startswith s [] = true.
Proof. destruct s; reflexivity. Qed.

Lemma startswith_cons s a p :
  str_startswith s (a :: p) = true ->
  exists s', s = a :: s' /\ str_startswith s' p = true.
Proof.
  destruct s as [|b s']; simpl; [discriminate|].
  intros H. apply andb_true_iff in H as [H1 H2].
  apply ascii_eqb_true in H1. subst. eauto.
Qed.

Lemma startswith_app p s : str_startswith (p ++ s) p = true.
Proof.
  induction p as [|a p IH]; simpl; [reflexivity|].
  rewrite Ascii.eqb_refl. exact IH.
Qed.

Lemma startswith_split s p :
  str_startswith s p = true -> exists r, s = p ++ r.
Proof.
  revert s. induction p as [|a p IH]; intros s H.
  - exists s. reflexivity.
  - apply startswith_cons in H as (s' & -> & H).
    destruct (IH _ H) as [r ->]. exists r. reflexivity.
Qed.

Lemma contains_unfold p c s :
  str_contains p (c :: s) = str_startswith (c :: s) p || str_contains p s.
Proof. reflexivity. Qed.

Lemma contains_nil p : str_contains p [] = str_startswith [] p.
Proof. simpl. apply orb_false_r. Qed.

Lemma contains_cons p c s :
  str_contains p s = true -> str_contains p (c :: s) = true.
Proof. intros H. rewrite contains_unfold, H. apply orb_true_r. Qed.

Lemma contains_app_l p a s :
  str_contains p s = true -> str_contains p (a ++ s) = true.
Proof.
  induction a as [|c a IH]; intros H; [assumption|].
  apply contains_cons, IH, H.
Qed.

Lemma startswith_app_r s t p :
  str_startswith s p = true -> str_startswith (s ++ t) p = true.
Proof.
  revert s. induction p as [|a p IH]; intros s H; [apply startswith_nil|].
  apply startswith_cons in H as (s' & -> & H). simpl.
  rewrite Ascii.eqb_refl. simpl. auto.
Qed.

Lemma contains_startswith p s :
  str_startswith s p = true -> str_contains p s = true.
Proof.
  intros H. destruct s; [rewrite contains_nil | rewrite contains_unfold, H]; auto.
Qed.

Lemma contains_app_r p s t :
  str_contains p s = true -> str_contains p (s ++ t) = true.
Proof.
  induction s as [|c s IH]; intros H.
  - rewrite contains_nil in H. apply contains_startswith.
    apply (startswith_app_r [] t p H).
  - rewrite contains_unfold in H. apply orb_true_iff in H as [H|H].
    + apply contains_startswith. apply (startswith_app_r (c :: s) t p H).
    + apply (contains_cons p c (s ++ t)), IH, H.
Qed.

Lemma contains_false_cons p c s :
  str_contains p (c :: s) = false ->
  str_startswith (c :: s) p = false /\ str_contains p s = false.
Proof. rewrite contains_unfold. intros H. apply orb_false_iff in H. exact H. Qed.

(** * Trimming *)

Lemma rstrip_unfold c s :
  str_rstrip (c :: s) =
  match str_rstrip s with
  | [] => if is_space c then [] else [c]
  | r => c :: r
  end.
Proof. reflexivity. Qed.

Lemma rstrip_cons_nonspace c s :
  is_space c = false -> str_rstrip (c :: s) = c :: str_rstrip s.
Proof. intros H. rewrite rstrip_unfold, H. destruct (str_rstrip s); reflexivity. Qed.

Lemma rstrip_spaces s : forallb is_space s = true -> str_rstrip s = [].
Proof.
  induction s as [|c s IH]; [reflexivity|]. simpl forallb.
  intros H. apply andb_true_iff in H as [Hc Hs].
  rewrite rstrip_unfold, IH, Hc by assumption. reflexivity.
Qed.

Lemma rstrip_snoc_space s c :
  is_space c = true -> str_rstrip (s ++ [c]) = str_rstrip s.
Proof.
  intros Hc. induction s as [|a s IH].
  - simpl. rewrite Hc. reflexivity.
  - change ((a :: s) ++ [c]) with (a :: (s ++ [c])).
    rewrite !rstrip_unfold, IH. reflexivity.
Qed.

Lemma rstrip_congr p a b :
  str_rstrip a = str_rstrip b -> str_rstrip (p ++ a) = str_rstrip (p ++ b).
Proof.
  intros H. induction p as [|c p IH]; [exact H|].
  change (str_rstrip (c :: (p ++ a)) = str_rstrip (c :: (p ++ b))).
  rewrite !rstrip_unfold, IH. reflexivity.
Qed.

(** What [rstrip] removes is a run of white space at the end. *)
Lemma rstrip_split s :
  exists w, s = str_rstrip s ++ w /\ forallb is_space w = true.
Proof.
  induction s as [|c s (w & Hs & Hw)].
  - exists []. auto.
  - rewrite rstrip_unfold. destruct (str_rstrip s) as [|r0 r] eqn:E.
    + destruct (is_space c) eqn:Hc.
      * exists (c :: s). split; [reflexivity|].
        simpl. rewrite Hc. simpl in Hs. subst w. exact Hw.
      * exists w. simpl in Hs. split; [simpl; congruence | exact Hw].
    + exists w. split; [|exact Hw]. simpl. simpl in Hs. congruence.
Qed.

Lemma lstrip_split s :
  exists w, s = w ++ str_lstrip s /\ forallb is_space w = true.
Proof.
  induction s as [|c s (w & Hs & Hw)].
  - exists []. auto.
  - simpl. destruct (is_space c) eqn:Hc.
    + exists (c :: w). simpl. rewrite Hc. split; [congruence | exact Hw].
    + exists []. auto.
Qed.

Lemma lstrip_idem s : str_lstrip (str_lstrip s) = str_lstrip s.
Proof.
  induction s as [|c s IH]; [reflexivity|]. simpl.
  destruct (is_space c) eqn:Hc; [exact IH|]. simpl. rewrite Hc. reflexivity.
Qed.

Lemma rstrip_idem s : str_rstrip (str_rstrip s) = str_rstrip s.
Proof.
  induction s as [|c s IH]; [reflexivity|].
  rewrite rstrip_unfold. destruct (str_rstrip s) as [|r0 r] eqn:E.
  - destruct (is_space c) eqn:Hc; [reflexivity|]. simpl. rewrite Hc. reflexivity.
  - rewrite rstrip_unfold, IH. reflexivity.
Qed.

(** Trimming the two ends in either order gives the same text. *)
Lemma lstrip_rstrip_comm s :
  str_lstrip (str_rstrip s) = str_rstrip (str_lstrip s).
Proof.
  induction s as [|c s IH]; [reflexivity|].
  simpl str_lstrip at 2. destruct (is_space c) eqn:Hc.
  - rewrite <- IH, rstrip_unfold. destruct (str_rstrip s) as [|r0 r].
    + rewrite Hc. reflexivity.
    + simpl. rewrite Hc. reflexivity.
  - rewrite rstrip_cons_nonspace by assumption. simpl. rewrite Hc. reflexivity.
Qed.

Lemma strip_idem s : str_strip (str_strip s) = str_strip s.
Proof.
  unfold str_strip.
  rewrite (lstrip_rstrip_comm (str_lstrip (str_rstrip s))).
  rewrite lstrip_idem, <- lstrip_rstrip_comm, rstrip_idem. reflexivity.
Qed.

Lemma strip_cons_space c s : is_space c = true -> str_strip (c :: s) = str_strip s.
Proof.
  intros Hc. unfold str_strip. rewrite rstrip_unfold.
  destruct (str_rstrip s) as [|r0 r]; [rewrite Hc; reflexivity|].
  simpl. rewrite Hc. reflexivity.
Qed.

Lemma strip_snoc_space s c : is_space c = true -> str_strip (s ++ [c]) = str_strip s.
Proof. intros Hc. unfold str_strip. rewrite rstrip_snoc_space by assumption. reflexivity. Qed.

Lemma strip_spaces s : forallb is_space s = true -> str_strip s = [].
Proof. intros H. unfold str_strip. rewrite rstrip_spaces by assumption. reflexivity. Qed.

Lemma strip_cons_nonspace c s :
  is_space c = false -> str_strip (c :: s) = c :: str_rstrip s.
Proof.
  intros Hc. unfold str_strip. rewrite rstrip_cons_nonspace by assumption.
  simpl. rewrite Hc. reflexivity.
Qed.

(** The trimmed text is a piece of the text. *)
Lemma strip_split s :
  exists w1 w2, s = w1 ++ str_strip s ++ w2.
Proof.
  destruct (rstrip_split s) as (w2 & Hs & _).
  destruct (lstrip_split (str_rstrip s)) as (w1 & Hr & _).
  exists w1, w2. unfold str_strip. rewrite app_assoc, <- Hr. exact Hs.
Qed.

Lemma contains_strip p s :
  str_contains p (str_strip s) = true -> str_contains p s = true.
Proof.
  intros H. destruct (strip_split s) as (w1 & w2 & Hs). rewrite Hs.
  apply contains_app_l, contains_app_r, H.
Qed.

Lemma strip_length s : length (str_strip s) <= length s.
Proof.
  destruct (strip_split s) as (w1 & w2 & Hs).
  rewrite Hs at 2. rewrite !length_app. lia.
Qed.

(** * Replacing *)

Lemma replace_from_unfold old new c s :
  replace_from old new 0 (c :: s) =
  if str_startswith (c :: s) old
  then new ++ replace_from old new (length old - 1) s
  else c :: replace_from old new 0 s.
Proof. reflexivity. Qed.

(** A text without an occurrence of [old] is left as it is. *)
Lemma replace_from_absent old new s :
  str_contains old s = false -> replace_from old new 0 s = s.
Proof.
  induction s as [|c s IH]; [reflexivity|]. intros H.
  apply contains_false_cons in H as [H1 H2].
  rewrite replace_from_unfold, H1, IH by assumption. reflexivity.
Qed.

Lemma replace_from_length old k s :
  length (replace_from old [] k s) <= length s.
Proof.
  revert k. induction s as [|c s IH]; intros k; [reflexivity|].
  destruct k as [|k].
  - rewrite replace_from_unfold. destruct (str_startswith (c :: s) old); simpl.
    + specialize (IH (length old - 1)). lia.
    + specialize (IH 0). lia.
  - simpl. specialize (IH k). lia.
Qed.

(** Removing an occurrence makes the text shorter. *)
Lemma replace_from_shorter a old s :
  str_contains (a :: old) s = true ->
  length (replace_from (a :: old) [] 0 s) < length s.
Proof.
  induction s as [|c s IH]; [discriminate|]. intros H.
  rewrite replace_from_unfold. rewrite contains_unfold in H.
  destruct (str_startswith (c :: s) (a :: old)) eqn:E.
  - pose proof (replace_from_length (a :: old) (length (a :: old) - 1) s).
    simpl length in *. simpl app. lia.
  - simpl in H. apply IH in H. simpl. lia.
Qed.

Lemma marker_text_cons k : exists r, marker_text k = ascii_of_nat 91 :: r.
Proof. destruct k; eexists; reflexivity. Qed.

Lemma replace_marker_unfold k s :
  str_replace (marker_text k) [] s = replace_from (marker_text k) [] 0 s.
Proof. destruct k; reflexivity. Qed.

Lemma replace_marker_absent k s :
  str_contains (marker_text k) s = false -> str_replace (marker_text k) [] s = s.
Proof. intros H. rewrite replace_marker_unfold. apply replace_from_absent, H. Qed.

Lemma replace_marker_length k s :
  length (str_replace (marker_text k) [] s) <= length s.
Proof. rewrite replace_marker_unfold. apply replace_from_length. Qed.

Lemma replace_marker_shorter k s :
  str_contains (marker_text k) s = true ->
  length (str_replace (marker_text k) [] s) < length s.
Proof.
  rewrite replace_marker_unfold. destruct (marker_text_cons k) as [r ->].
  apply replace_from_shorter.
Qed.

(** * The sanitizer *)

Lemma strip_markers_unfold s :
  strip_markers s =
  str_strip (str_replace (marker_text M4) []
    (str_replace (marker_text M3) []
      (str_replace (marker_text M2) []
        (str_replace (marker_text M1) [] s)))).
Proof. reflexivity. Qed.

Lemma contains_marker_false s :
  contains_marker s = false ->
  forall k, str_contains (marker_text k) s = false.
Proof.
  unfold contains_marker. intros H k.
  repeat (apply orb_false_iff in H as [H ?]). destruct k; assumption.
Qed.

Lemma contains_marker_true s :
  contains_marker s = true ->
  exists k, str_contains (marker_text k) s = true.
Proof.
  unfold contains_marker. intros H.
  repeat (apply orb_true_iff in H as [H|H]);
    [exists M1 | exists M2 | exists M3 | exists M4]; exact H.
Qed.

Lemma contains_marker_intro k s :
  str_contains (marker_text k) s = true -> contains_marker s = true.
Proof.
  unfold contains_marker. intros H.
  destruct k; simpl in H; rewrite H; rewrite ?orb_true_r; reflexivity.
Qed.

Lemma contains_marker_strip s :
  contains_marker s = false -> contains_marker (str_strip s) = false.
Proof.
  intros H. destruct (contains_marker (str_strip s)) eqn:E; [|reflexivity].
  apply contains_marker_true in E as [k E]. apply contains_strip in E.
  rewrite (contains_marker_false s H k) in E. discriminate.
Qed.

(** A text without markers is only trimmed. *)
Lemma strip_markers_absent s :
  contains_marker s = false -> strip_markers s = str_strip s.
Proof.
  intros H. pose proof (contains_marker_false s H) as Hk.
  rewrite strip_markers_unfold.
  rewrite (replace_marker_absent M1), (replace_marker_absent M2),
    (replace_marker_absent M3), (replace_marker_absent M4); auto.
Qed.

(** A text with a marker gets shorter. *)
Lemma strip_markers_shorter s :
  contains_marker s = true -> length (strip_markers s) < length s.
Proof.
  intros H. rewrite strip_markers_unfold.
  set (s1 := str_replace (marker_text M1) [] s).
  set (s2 := str_replace (marker_text M2) [] s1).
  set (s3 := str_replace (marker_text M3) [] s2).
  set (s4 := str_replace (marker_text M4) [] s3).
  assert (length (str_strip s4) <= length s4) by apply strip_length.
  assert (length s1 <= length s) by apply replace_marker_length.
  assert (length s2 <= length s1) by apply replace_marker_length.
  assert (length s3 <= length s2) by apply replace_marker_length.
  assert (length s4 <= length s3) by apply replace_marker_length.
  destruct (str_contains (marker_text M1) s) eqn:E1.
  { apply replace_marker_shorter in E1. fold s1 in E1. lia. }
  assert (s1 = s) as Hs1 by (apply replace_marker_absent, E1).
  destruct (str_contains (marker_text M2) s) eqn:E2.
  { rewrite <- Hs1 in E2 at 1. apply replace_marker_shorter in E2. fold s2 in E2. lia. }
  assert (s2 = s) as Hs2
    by (unfold s2; rewrite Hs1; apply replace_marker_absent, E2).
  destruct (str_contains (marker_text M3) s) eqn:E3.
  { rewrite <- Hs2 in E3 at 1. apply replace_marker_shorter in E3. fold s3 in E3. lia. }
  assert (s3 = s) as Hs3
    by (unfold s3; rewrite Hs2; apply replace_marker_absent, E3).
  destruct (str_contains (marker_text M4) s) eqn:E4.
  { rewrite <- Hs3 in E4 at 1. apply replace_marker_shorter in E4. fold s4 in E4. lia. }
  apply contains_marker_true in H as [k H].
  destruct k; simpl marker_text in *; congruence.
Qed.

(** * Markers put into a text without markers *)

(** A run of characters without an opening bracket cannot lie over a
    marker token: where it is read in the text with markers, it is read
    in the text without them too. *)
Lemma startswith_without p :
  no_bracket p = true ->
  forall ps, str_startswith (with_markers ps) p = true ->
             str_startswith (without_markers ps) p = true.
Proof.
  induction p as [|a p IH]; intros Hp ps H; [apply startswith_nil|].
  simpl in Hp. apply andb_true_iff in Hp as [Ha Hp].
  destruct ps as [|[k|c] ps].
  - discriminate.
  - exfalso. destruct (marker_text_cons k) as [r Hr].
    simpl with_markers in H. rewrite Hr in H. simpl in H.
    apply andb_true_iff in H as [H _]. unfold open_bracket in Ha.
    rewrite H in Ha. discriminate.
  - simpl in *. apply andb_true_iff in H as [H1 H2].
    rewrite H1. simpl. auto.
Qed.

Lemma marker_text_tail k :
  exists r, marker_text k = open_bracket :: r /\ no_bracket r = true.
Proof. destruct k; eexists; split; reflexivity. Qed.

Lemma startswith_marker_chr k c ps :
  str_startswith (with_markers (Chr c :: ps)) (marker_text k) = true ->
  str_startswith (without_markers (Chr c :: ps)) (marker_text k) = true.
Proof.
  destruct (marker_text_tail k) as (r & -> & Hr). simpl.
  intros H. apply andb_true_iff in H as [H1 H2]. rewrite H1. simpl.
  apply startswith_without; assumption.
Qed.

Lemma replace_marker_same k w :
  replace_from (marker_text k) [] 0 (marker_text k ++ w) =
  replace_from (marker_text k) [] 0 w.
Proof. destruct k; reflexivity. Qed.

Lemma replace_marker_other j k w :
  j <> k ->
  replace_from (marker_text k) [] 0 (marker_text j ++ w) =
  marker_text j ++ replace_from (marker_text k) [] 0 w.
Proof. destruct j, k; intros H; try contradiction; reflexivity. Qed.

Lemma is_tok_true k j : is_tok k (Tok j) = true -> j = k.
Proof. destruct k, j; simpl; congruence. Qed.

Lemma is_tok_false k j : is_tok k (Tok j) = false -> j <> k.
Proof. destruct k, j; simpl; congruence. Qed.

Lemma drop_tok_cons k p ps :
  drop_tok k (p :: ps) =
  if is_tok k p then drop_tok k ps else p :: drop_tok k ps.
Proof. unfold drop_tok. simpl. destruct (is_tok k p); reflexivity. Qed.

Lemma without_drop_tok k ps :
  without_markers (drop_tok k ps) = without_markers ps.
Proof.
  induction ps as [|[j|c] ps IH]; [reflexivity| |]; rewrite drop_tok_cons.
  - destruct (is_tok k (Tok j)); simpl; exact IH.
  - simpl. rewrite IH. reflexivity.
Qed.

Lemma with_markers_tok k ps :
  with_markers (Tok k :: ps) = marker_text k ++ with_markers ps.
Proof. reflexivity. Qed.

Lemma with_markers_chr c ps :
  with_markers (Chr c :: ps) = c :: with_markers ps.
Proof. reflexivity. Qed.

(** One [replace] removes the tokens of one marker and nothing else. *)
Lemma replace_with_markers k ps :
  contains_marker (without_markers ps) = false ->
  str_replace (marker_text k) [] (with_markers ps) = with_markers (drop_tok k ps).
Proof.
  rewrite replace_marker_unfold.
  induction ps as [|[j|c] ps IH]; intros H; [reflexivity| |].
  - rewrite with_markers_tok, drop_tok_cons.
    destruct (is_tok k (Tok j)) eqn:E.
    + apply is_tok_true in E. subst j. rewrite replace_marker_same. auto.
    + apply is_tok_false in E. rewrite replace_marker_other by assumption.
      rewrite with_markers_tok, IH by assumption. reflexivity.
  - pose proof (contains_marker_false _ H k) as Hk.
    simpl without_markers in Hk. apply contains_false_cons in Hk as [Hk1 Hk2].
    assert (str_startswith (with_markers (Chr c :: ps)) (marker_text k) = false) as E.
    { destruct (str_startswith (with_markers (Chr c :: ps)) (marker_text k)) eqn:E;
        [|reflexivity].
      apply startswith_marker_chr in E. simpl without_markers in E. congruence. }
    rewrite with_markers_chr in *. rewrite replace_from_unfold, E.
    rewrite drop_tok_cons. simpl is_tok. cbv iota. rewrite with_markers_chr.
    rewrite IH; [reflexivity|].
    destruct (contains_marker (without_markers ps)) eqn:C; [|reflexivity].
    apply contains_marker_true in C as [j C].
    apply (contains_cons _ c) in C. apply contains_marker_intro in C.
    simpl without_markers in H. congruence.
Qed.

Lemma drop_all_toks ps :
  with_markers (drop_tok M4 (drop_tok M3 (drop_tok M2 (drop_tok M1 ps)))) =
  without_markers ps.
Proof.
  induction ps as [|[j|c] ps IH]; [reflexivity| |].
  - destruct j; simpl; exact IH.
  - rewrite !drop_tok_cons. simpl. rewrite <- IH. reflexivity.
Qed.

(** The four replacements leave the text the markers were put into. *)
Lemma replace_all_with_markers ps :
  contains_marker (without_markers ps) = false ->
  str_replace (marker_text M4) []
    (str_replace (marker_text M3) []
      (str_replace (marker_text M2) []
        (str_replace (marker_text M1) [] (with_markers ps)))) =
  without_markers ps.
Proof.
  intros H.
  rewrite (replace_with_markers M1) by assumption.
  rewrite (replace_with_markers M2) by (rewrite without_drop_tok; assumption).
  rewrite (replace_with_markers M3) by (rewrite !without_drop_tok; assumption).
  rewrite (replace_with_markers M4) by (rewrite !without_drop_tok; assumption).
  apply drop_all_toks.
Qed.

(** * Lines *)

Lemma splitlines_from_nil f cur :
  splitlines_from f cur [] = match cur with [] => [] | _ :: _ => [cur] end.
Proof. reflexivity. Qed.

Lemma splitlines_from_cons f cur c s :
  splitlines_from f cur (c :: s) =
  if f && Ascii.eqb c LF then splitlines_from false cur s
  else if is_linebreak c then cur :: splitlines_from (Ascii.eqb c CR) [] s
  else splitlines_from false (cur ++ [c]) s.
Proof. reflexivity. Qed.

(** A line that ends with a line feed. *)
Lemma splitlines_from_line l cur s :
  no_linebreak l = true ->
  splitlines_from false cur (l ++ LF :: s) = (cur ++ l) :: splitlines_from false [] s.
Proof.
  revert cur. induction l as [|c l IH]; intros cur H.
  - rewrite app_nil_r. reflexivity.
  - simpl in H. apply andb_true_iff in H as [Hc Hl].
    apply negb_true_iff in Hc.
    change ((c :: l) ++ LF :: s) with (c :: (l ++ LF :: s)).
    rewrite splitlines_from_cons, Hc. simpl andb. cbv iota.
    rewrite IH by assumption. rewrite <- app_assoc. reflexivity.
Qed.

Lemma unlines_cons ln ls : unlines (ln :: ls) = (ln ++ [LF]) ++ unlines ls.
Proof. reflexivity. Qed.

(** With the line feed as only boundary, the lines put back together are
    the text, but for a line feed at the end. *)
Lemma rstrip_unlines s :
  only_lf_breaks s = true ->
  forall cur, str_rstrip (unlines (splitlines_from false cur s)) = str_rstrip (cur ++ s).
Proof.
  induction s as [|c s IH]; intros H cur.
  - rewrite app_nil_r, splitlines_from_nil. destruct cur as [|a cur]; [reflexivity|].
    rewrite unlines_cons. simpl unlines. rewrite app_nil_r.
    apply rstrip_snoc_space. reflexivity.
  - simpl in H. apply andb_true_iff in H as [Hc Hs].
    rewrite splitlines_from_cons. simpl andb. cbv iota.
    destruct (is_linebreak c) eqn:Eb.
    + simpl in Hc. apply ascii_eqb_true in Hc. subst c.
      change (Ascii.eqb LF CR) with false.
      rewrite unlines_cons.
      change (cur ++ LF :: s) with (cur ++ [LF] ++ s). rewrite app_assoc.
      apply rstrip_congr. rewrite (IH Hs []). reflexivity.
    + rewrite (IH Hs (cur ++ [c])), <- app_assoc. reflexivity.
Qed.

Lemma strip_unlines s :
  only_lf_breaks s = true ->
  str_strip (unlines (str_splitlines s)) = str_strip s.
Proof.
  intros H. unfold str_strip, str_splitlines.
  rewrite (rstrip_unlines s H []). reflexivity.
Qed.

(** * The parser *)

Lemma split_colon1_cons c s :
  split_colon1 (c :: s) =
  if Ascii.eqb c colon then [[]; s]
  else match split_colon1 s with
       | a :: rest => (c :: a) :: rest
       | [] => [[c]]
       end.
Proof. reflexivity. Qed.

(** A text with a colon is split in two. *)
Lemma split_colon1_two s :
  In colon s -> exists a b, split_colon1 s = [a; b].
Proof.
  induction s as [|c s IH]; intros H; [destruct H|].
  rewrite split_colon1_cons. destruct (Ascii.eqb c colon) eqn:E; [eauto|].
  destruct H as [H|H].
  - subst c. rewrite Ascii.eqb_refl in E. discriminate.
  - destruct (IH H) as (a & b & ->). eauto.
Qed.

Lemma lower_has_colon s :
  In colon (str_lower s) -> In colon s.
Proof.
  unfold str_lower. rewrite in_map_iff. intros (c & Hc & Hin).
  apply lower_char_colon in Hc. subst c. exact Hin.
Qed.

Lemma strip_has_colon s : In colon (str_strip s) -> In colon s.
Proof.
  destruct (strip_split s) as (w1 & w2 & Hs). intros H.
  rewrite Hs. apply in_or_app. right. apply in_or_app. left. exact H.
Qed.

(** A [title:] line has a colon. *)
Lemma title_line_colon ln : is_title_line ln = true -> In colon ln.
Proof.
  unfold is_title_line. intros H.
  apply startswith_split in H as [r Hr].
  apply strip_has_colon, lower_has_colon. rewrite Hr.
  apply in_or_app. left. vm_compute. tauto.
Qed.

Lemma title_line_split ln :
  is_title_line ln = true -> exists a b, split_colon1 ln = [a; b].
Proof. intros H. apply split_colon1_two, title_line_colon, H. Qed.

Lemma title_line_index1 ln :
  is_title_line ln = true ->
  index1 (split_colon1 ln) = Ok (nth 1 (split_colon1 ln) []).
Proof. intros H. destruct (title_line_split ln H) as (a & b & ->). reflexivity. Qed.

Lemma parse_lines_cons ln rest title story mode :
  parse_lines (ln :: rest) title story mode =
  if is_title_line ln then
    r ← index1 (split_colon1 ln);
    parse_lines rest (str_strip r) story ModeNone
  else if is_story_line ln then parse_lines rest title story ModeStory
  else match mode with
       | ModeStory => parse_lines rest title (story ++ ln ++ [LF]) mode
       | ModeNone => parse_lines rest title story mode
       end.
Proof. reflexivity. Qed.

Lemma parse_lines_title ln rest title story mode :
  is_title_line ln = true ->
  parse_lines (ln :: rest) title story mode =
  parse_lines rest (title_of ln) story ModeNone.
Proof.
  intros H. rewrite parse_lines_cons, H, (title_line_index1 ln H). reflexivity.
Qed.

(** The loop ends, whatever the lines. *)
Lemma parse_lines_total lines :
  forall title story mode,
  exists t s, parse_lines lines title story mode = Ok (t, s).
Proof.
  induction lines as [|ln rest IH]; intros title story mode.
  - simpl. eauto.
  - destruct (is_title_line ln) eqn:Et.
    + rewrite parse_lines_title by assumption. apply IH.
    + rewrite parse_lines_cons, Et.
      destruct (is_story_line ln); [apply IH|]. destruct mode; apply IH.
Qed.

(** Without a [story:] line nothing is ever appended to the body. *)
Lemma parse_lines_no_story lines :
  existsb is_story_line lines = false ->
  forall title,
  parse_lines lines title [] ModeNone = Ok (last_title lines title, []).
Proof.
  induction lines as [|ln rest IH]; intros H title; [reflexivity|].
  simpl in H. apply orb_false_iff in H as [Hs Hrest].
  destruct (is_title_line ln) eqn:Et.
  - rewrite parse_lines_title by assumption. simpl. rewrite Et. auto.
  - rewrite parse_lines_cons, Et, Hs. simpl. rewrite Et. auto.
Qed.

(** After the [story:] line, body lines are appended one after the other. *)
Lemma parse_lines_body lines :
  forallb is_body_line lines = true ->
  forall title story,
  parse_lines lines title story ModeStory =
  Ok (title, str_strip (story ++ unlines lines)).
Proof.
  induction lines as [|ln rest IH]; intros H title story.
  - simpl. rewrite app_nil_r. reflexivity.
  - simpl in H. apply andb_true_iff in H as [Hb Hrest].
    unfold is_body_line in Hb. apply negb_true_iff, orb_false_iff in Hb as [Et Es].
    rewrite parse_lines_cons, Et, Es, IH by assumption.
    rewrite unlines_cons, !app_assoc. reflexivity.
Qed.

Lemma last_title_in lines :
  existsb is_title_line lines = true ->
  forall title,
  exists ln, In ln lines /\ is_title_line ln = true /\
             last_title lines title = title_of ln.
Proof.
  induction lines as [|ln rest IH]; intros H title; [discriminate|].
  simpl. destruct (existsb is_title_line rest) eqn:E.
  - destruct (IH eq_refl (if is_title_line ln then title_of ln else title))
      as (l & Hin & Ht & Hl).
    exists l. split; [right; exact Hin|]. split; [exact Ht|].
    destruct (is_title_line ln); exact Hl.
  - simpl in H. rewrite E, orb_false_r in H. exists ln.
    split; [left; reflexivity|]. split; [exact H|]. rewrite H.
    clear IH H. revert E. generalize (title_of ln).
    induction rest as [|l rest IH]; intros t E; [reflexivity|].
    simpl in E. apply orb_false_iff in E as [E1 E2]. simpl. rewrite E1. auto.
Qed.

(** C5: the parser returns a pair for every text and raises nothing; the
    only step that could raise, the index into [split], is in bounds,
    because a line taken for a [title:] line has a colon and is split in
    two. *)
Theorem parse_gemini_output_total :
  (forall text : str,
     exists title story_raw, parse_gemini_output text = Ok (title, story_raw)) /\
  (forall ln : str,
     is_title_line ln = true ->
     In colon ln /\
     exists before after,
       split_colon1 ln = [before; after] /\
       index1 (split_colon1 ln) = Ok after).
Proof.
  split.
  - intros text. apply parse_lines_total.
  - intros ln H. split; [apply title_line_colon, H|].
    destruct (title_line_split ln H) as (a & b & E).
    exists a, b. rewrite E. split; reflexivity.
Qed.

Lemma parse_gemini_output_total_witness :
  (exists title story_raw,
     parse_gemini_output (lit "tItLe :: story: title") = Ok (title, story_raw)) /\
  In colon (lit "  TITLE:a:b") /\
  exists before after,
    split_colon1 (lit "  TITLE:a:b") = [before; after] /\
    index1 (split_colon1 (lit "  TITLE:a:b")) = Ok after.
Proof.
  split.
  - apply (proj1 parse_gemini_output_total (lit "tItLe :: story: title")).
  - apply (proj2 parse_gemini_output_total (lit "  TITLE:a:b")). reflexivity.
Defined.

(** * C3: the requested format *)

Lemma splitlines_formatted X Y :
  no_linebreak X = true ->
  str_splitlines (formatted X Y) =
  (lit "Title: " ++ X) :: [] :: lit "Story:" :: str_splitlines Y.
Proof.
  intros HX. unfold str_splitlines, formatted.
  rewrite (app_assoc (lit "Title: ") X).
  change ([LF; LF] ++ lit "Story:" ++ [LF] ++ Y)
    with (LF :: ([] ++ LF :: (lit "Story:" ++ LF :: Y))).
  rewrite !splitlines_from_line; [reflexivity | reflexivity | reflexivity |].
  unfold no_linebreak. rewrite forallb_app. fold (no_linebreak X). rewrite HX.
  reflexivity.
Qed.

Lemma title_line_formatted X : is_title_line (lit "Title: " ++ X) = true.
Proof.
  unfold is_title_line. simpl app.
  rewrite strip_cons_nonspace by reflexivity.
  rewrite !rstrip_cons_nonspace by reflexivity. reflexivity.
Qed.

Lemma title_of_formatted X : title_of (lit "Title: " ++ X) = str_strip X.
Proof. unfold title_of. simpl. apply strip_cons_space. reflexivity. Qed.

(** C3, as stated, fails: the title is trimmed, a CR LF inside the body
    comes back as a line feed, and a body line that starts with [title:]
    is taken for the title and stops the capture of the body. *)
Lemma parse_formatted_differs :
  parse_gemini_output (formatted (lit "T ") (lit "A" ++ [CR; LF] ++ lit "B")) =
    Ok (lit "T", lit "A" ++ [LF] ++ lit "B") /\
  lit "T" <> lit "T " /\
  lit "A" ++ [LF] ++ lit "B" <> str_strip (lit "A" ++ [CR; LF] ++ lit "B") /\
  parse_gemini_output (formatted (lit "T") (lit "A" ++ [LF] ++ lit "Title: B")) =
    Ok (lit "B", lit "A") /\
  lit "B" <> lit "T" /\
  lit "A" <> str_strip (lit "A" ++ [LF] ++ lit "Title: B").
Proof. repeat split; vm_compute; congruence. Qed.

(** C3 (amended): for a reply [Title: X\n\nStory:\nY] where [X] has no
    line boundary and no line of [Y] starts (trimmed, in lower case) with
    [title:] or [story:], the parser gives [X] trimmed as the title and,
    as the body, the lines of [Y], each followed by a line feed, trimmed;
    that is [Y] trimmed when the line boundaries of [Y] are line feeds. *)
Theorem parse_formatted (X Y : str) :
  no_linebreak X = true ->
  forallb is_body_line (str_splitlines Y) = true ->
  parse_gemini_output (formatted X Y) =
    Ok (str_strip X, str_strip (unlines (str_splitlines Y))) /\
  (only_lf_breaks Y = true ->
   parse_gemini_output (formatted X Y) = Ok (str_strip X, str_strip Y)).
Proof.
  intros HX Hbody.
  assert (parse_gemini_output (formatted X Y) =
          Ok (str_strip X, str_strip (unlines (str_splitlines Y)))) as E.
  { unfold parse_gemini_output.
    rewrite splitlines_formatted by assumption.
    rewrite parse_lines_title by apply title_line_formatted.
    rewrite title_of_formatted.
    rewrite parse_lines_cons. change (is_title_line []) with false.
    change (is_story_line []) with false. cbv iota.
    rewrite parse_lines_cons. change (is_title_line (lit "Story:")) with false.
    change (is_story_line (lit "Story:")) with true. cbv iota.
    rewrite parse_lines_body by assumption. reflexivity. }
  split; [exact E|].
  intros HY. rewrite E, strip_unlines by assumption. reflexivity.
Qed.

Lemma parse_formatted_witness :
  parse_gemini_output
    (formatted (lit "The Last Light")
       (lit "[TWIST1] She opened the door." ++ [LF] ++ lit "It was raining.")) =
  Ok (str_strip (lit "The Last Light"),
      str_strip (lit "[TWIST1] She opened the door." ++ [LF] ++ lit "It was raining.")).
Proof.
  apply (parse_formatted (lit "The Last Light")
    (lit "[TWIST1] She opened the door." ++ [LF] ++ lit "It was raining."));
    reflexivity.
Defined.

(** * Lines of a trimmed text *)

Section TrimmedLines.

(** A test on lines that does not see white space at the ends of a
    line, and that the empty line fails. *)
Variable p : str -> bool.
Hypothesis p_nil : p [] = false.
Hypothesis p_cons : forall c l, is_space c = true -> p (c :: l) = p l.
Hypothesis p_snoc : forall c l, is_space c = true -> p (l ++ [c]) = p l.

Lemma exists_pending cur :
  existsb p (match cur with [] => [] | _ :: _ => [cur] end) = p cur.
Proof using p_nil.
  destruct cur; simpl; [symmetry; exact p_nil | apply orb_false_r].
Qed.

Lemma exists_after_cr s :
  existsb p (splitlines_from true [] s) = existsb p (splitlines_from false [] s).
Proof using p_nil.
  destruct s as [|a s]; [reflexivity|].
  rewrite !splitlines_from_cons. simpl andb.
  destruct (Ascii.eqb a LF) eqn:E; [|reflexivity].
  apply ascii_eqb_true in E. subst a.
  change (is_linebreak LF) with true. cbv iota. simpl existsb.
  rewrite p_nil. reflexivity.
Qed.

Lemma exists_space_before c s :
  is_space c = true ->
  forall f cur,
  existsb p (splitlines_from f (c :: cur) s) = existsb p (splitlines_from f cur s).
Proof using p_nil p_cons.
  intros Hc. induction s as [|a s IH]; intros f cur.
  - rewrite !splitlines_from_nil.
    transitivity (p cur); [|symmetry; apply exists_pending].
    simpl. rewrite orb_false_r. apply p_cons, Hc.
  - rewrite !splitlines_from_cons.
    destruct (f && Ascii.eqb a LF); [apply IH|].
    destruct (is_linebreak a).
    + simpl. rewrite p_cons by assumption. reflexivity.
    + apply (IH false (cur ++ [a])).
Qed.

Lemma exists_lines_cons_space c s :
  is_space c = true ->
  existsb p (str_splitlines (c :: s)) = existsb p (str_splitlines s).
Proof using p_nil p_cons.
  intros Hc. unfold str_splitlines. rewrite splitlines_from_cons.
  simpl andb. cbv iota. destruct (is_linebreak c).
  - simpl existsb. rewrite p_nil. simpl orb.
    destruct (Ascii.eqb c CR); [apply exists_after_cr | reflexivity].
  - apply (exists_space_before c s Hc false []).
Qed.

Lemma exists_lines_lstrip s :
  existsb p (str_splitlines (str_lstrip s)) = existsb p (str_splitlines s).
Proof using p_nil p_cons.
  induction s as [|c s IH]; [reflexivity|]. simpl str_lstrip.
  destruct (is_space c) eqn:Hc; [|reflexivity].
  rewrite exists_lines_cons_space by assumption. exact IH.
Qed.

Lemma exists_spaces_after w :
  forallb is_space w = true ->
  forall f cur, existsb p (splitlines_from f cur w) = p cur.
Proof using p_nil p_snoc.
  induction w as [|c w IH]; intros H f cur.
  - rewrite splitlines_from_nil. apply exists_pending.
  - simpl in H. apply andb_true_iff in H as [Hc Hw].
    rewrite splitlines_from_cons.
    destruct (f && Ascii.eqb c LF); [apply IH, Hw|].
    destruct (is_linebreak c).
    + simpl. rewrite (IH Hw), p_nil. apply orb_false_r.
    + rewrite (IH Hw). apply p_snoc, Hc.
Qed.

Lemma exists_lines_app_spaces w s :
  forallb is_space w = true ->
  forall f cur,
  existsb p (splitlines_from f cur (s ++ w)) = existsb p (splitlines_from f cur s).
Proof using p_nil p_snoc.
  intros Hw. induction s as [|a s IH]; intros f cur.
  - simpl app. rewrite exists_spaces_after by assumption.
    rewrite splitlines_from_nil. symmetry. apply exists_pending.
  - change ((a :: s) ++ w) with (a :: (s ++ w)).
    rewrite !splitlines_from_cons.
    destruct (f && Ascii.eqb a LF); [apply IH|].
    destruct (is_linebreak a); [|apply IH].
    simpl. rewrite IH. reflexivity.
Qed.

Lemma exists_lines_rstrip s :
  existsb p (str_splitlines (str_rstrip s)) = existsb p (str_splitlines s).
Proof using p_nil p_snoc.
  destruct (rstrip_split s) as (w & Hs & Hw).
  rewrite Hs at 2. unfold str_splitlines.
  rewrite exists_lines_app_spaces by assumption. reflexivity.
Qed.

(** Trimming a text neither adds nor removes a line that passes. *)
Lemma exists_lines_strip s :
  existsb p (str_splitlines (str_strip s)) = existsb p (str_splitlines s).
Proof using p_nil p_cons p_snoc.
  unfold str_strip. rewrite exists_lines_lstrip. apply exists_lines_rstrip.
Qed.

End TrimmedLines.

Lemma story_lines_strip s :
  existsb is_story_line (str_splitlines (str_strip s)) =
  existsb is_story_line (str_splitlines s).
Proof.
  apply exists_lines_strip; [reflexivity | |]; intros c l Hc; unfold is_story_line.
  - rewrite strip_cons_space by assumption. reflexivity.
  - rewrite strip_snoc_space by assumption. reflexivity.
Qed.

Lemma title_lines_strip s :
  existsb is_title_line (str_splitlines (str_strip s)) =
  existsb is_title_line (str_splitlines s).
Proof.
  apply exists_lines_strip; [reflexivity | |]; intros c l Hc; unfold is_title_line.
  - rewrite strip_cons_space by assumption. reflexivity.
  - rewrite strip_snoc_space by assumption. reflexivity.
Qed.

(** * Title lines and marker tokens *)

Lemma lower_char_space c : is_space c = true -> lower_char c = c.
Proof. each_char c. Qed.

(** White space at the end of a text is not seen by a prefix without
    white space. *)
Lemma startswith_lower_rstrip y :
  forall t, no_space t = true ->
  str_startswith (str_lower (str_rstrip y)) t = str_startswith (str_lower y) t.
Proof.
  induction y as [|c y IH]; intros t Ht; [reflexivity|].
  destruct t as [|a t]; [reflexivity|].
  simpl in Ht. apply andb_true_iff in Ht as [Ha Ht]. apply negb_true_iff in Ha.
  specialize (IH t Ht). rewrite rstrip_unfold.
  destruct (str_rstrip y) as [|r0 r] eqn:E.
  - destruct (is_space c) eqn:Hc.
    + simpl. rewrite (lower_char_space c Hc).
      destruct (Ascii.eqb a c) eqn:Eac; [|reflexivity].
      apply ascii_eqb_true in Eac. congruence.
    + simpl. simpl in IH. rewrite <- IH. destruct t; reflexivity.
  - simpl map. simpl in IH. simpl. rewrite IH. reflexivity.
Qed.

Lemma title_line_lstrip z :
  is_title_line z = str_startswith (str_lower (str_lstrip z)) (lit "title:").
Proof.
  unfold is_title_line, str_strip. rewrite lstrip_rstrip_comm.
  apply startswith_lower_rstrip. reflexivity.
Qed.

Lemma lstrip_app x z :
  str_lstrip (x ++ z) =
  if forallb is_space x then str_lstrip z else str_lstrip x ++ z.
Proof.
  induction x as [|c x IH]; [reflexivity|]. simpl.
  destruct (is_space c); [exact IH | reflexivity].
Qed.

(** A prefix without the character [b] ends before [b]. *)
Lemma startswith_before b u v w :
  forall t, ~ In b t ->
  str_startswith (u ++ b :: v) t = true -> str_startswith (u ++ w) t = true.
Proof.
  induction u as [|c u IH]; intros t Hb H.
  - destruct t as [|a t]; [apply startswith_nil|].
    simpl in H. apply andb_true_iff in H as [H _]. apply ascii_eqb_true in H.
    subst a. exfalso. apply Hb. left. reflexivity.
  - destruct t as [|a t]; [reflexivity|].
    simpl in *. apply andb_true_iff in H as [H1 H2]. rewrite H1. simpl.
    apply IH; [|exact H2]. intros Hin. apply Hb. right. exact Hin.
Qed.

(** Taking a marker token out of a [title:] line leaves a [title:] line. *)
Lemma title_line_drop_marker k x y :
  is_title_line (x ++ marker_text k ++ y) = true -> is_title_line (x ++ y) = true.
Proof.
  rewrite !title_line_lstrip, !lstrip_app.
  destruct (marker_text_cons k) as [r Hr]. rewrite Hr.
  destruct (forallb is_space x).
  - simpl. discriminate.
  - unfold str_lower. rewrite !map_app. simpl map.
    apply startswith_before. vm_compute. intuition discriminate.
Qed.

Lemma title_line_nil : is_title_line [] = false.
Proof. reflexivity. Qed.

Lemma splitlines_from_marker k cur s :
  splitlines_from false cur (marker_text k ++ s) =
  splitlines_from false (cur ++ marker_text k) s.
Proof.
  destruct k; simpl; rewrite <- ?app_assoc; reflexivity.
Qed.

Lemma splitlines_after_cr_marker k s :
  splitlines_from true [] (marker_text k ++ s) =
  splitlines_from false [] (marker_text k ++ s).
Proof. destruct k; reflexivity. Qed.

(** * Lines that the sanitizer keeps *)

Section KeptLines.

(** A property of lines that the empty line does not have, and that a
    line keeps when it loses white space at an end or a marker token. *)
Variable P : str -> Prop.
Hypothesis P_nil : ~ P [].
Hypothesis P_cons : forall c l, is_space c = true -> P (c :: l) -> P l.
Hypothesis P_snoc : forall c l, is_space c = true -> P (l ++ [c]) -> P l.
Hypothesis P_marker : forall k x y, P (x ++ marker_text k ++ y) -> P (x ++ y).

Lemma kept_pending cur :
  Exists P (match cur with [] => [] | _ :: _ => [cur] end) <-> P cur.
Proof using P_nil.
  destruct cur as [|c cur].
  - rewrite Exists_nil. split; [contradiction | exact P_nil].
  - rewrite Exists_cons, Exists_nil. tauto.
Qed.

Lemma kept_after_cr s :
  Exists P (splitlines_from true [] s) <-> Exists P (splitlines_from false [] s).
Proof using P_nil.
  destruct s as [|a s]; [reflexivity|].
  rewrite !splitlines_from_cons. simpl andb.
  destruct (Ascii.eqb a LF) eqn:E; [|reflexivity].
  apply ascii_eqb_true in E. subst a.
  change (is_linebreak LF) with true. cbv iota.
  rewrite Exists_cons. split; [auto|]. intros [H|H]; [destruct (P_nil H) | exact H].
Qed.

Lemma kept_space_before c s :
  is_space c = true ->
  forall f cur,
  Exists P (splitlines_from f (c :: cur) s) -> Exists P (splitlines_from f cur s).
Proof using P_nil P_cons.
  intros Hc. induction s as [|a s IH]; intros f cur H.
  - rewrite splitlines_from_nil. apply kept_pending.
    apply (kept_pending (c :: cur)) in H. apply (P_cons c _ Hc H).
  - rewrite splitlines_from_cons in H |- *.
    destruct (f && Ascii.eqb a LF); [apply IH, H|].
    destruct (is_linebreak a).
    + rewrite Exists_cons in H |- *.
      destruct H as [H|H]; [left; apply (P_cons c _ Hc H) | right; exact H].
    + apply IH. exact H.
Qed.

Lemma kept_cons_space c s :
  is_space c = true ->
  Exists P (str_splitlines (c :: s)) -> Exists P (str_splitlines s).
Proof using P_nil P_cons.
  intros Hc. unfold str_splitlines. rewrite splitlines_from_cons.
  simpl andb. cbv iota. destruct (is_linebreak c).
  - rewrite Exists_cons. intros [H|H]; [destruct (P_nil H)|].
    destruct (Ascii.eqb c CR); [apply kept_after_cr, H | exact H].
  - apply (kept_space_before c s Hc false []).
Qed.

Lemma kept_lstrip s :
  Exists P (str_splitlines s) -> Exists P (str_splitlines (str_lstrip s)).
Proof using P_nil P_cons.
  induction s as [|c s IH]; [auto|]. simpl str_lstrip.
  destruct (is_space c) eqn:Hc; [|auto].
  intros H. apply IH, (kept_cons_space c s Hc), H.
Qed.

Lemma kept_spaces_after w :
  forallb is_space w = true ->
  forall f cur, Exists P (splitlines_from f cur w) -> P cur.
Proof using P_nil P_snoc.
  induction w as [|c w IH]; intros Hw f cur H.
  - apply kept_pending, H.
  - simpl in Hw. apply andb_true_iff in Hw as [Hc Hw].
    rewrite splitlines_from_cons in H.
    destruct (f && Ascii.eqb c LF); [apply (IH Hw _ _ H)|].
    destruct (is_linebreak c).
    + rewrite Exists_cons in H.
      destruct H as [H|H]; [exact H | destruct (P_nil (IH Hw _ _ H))].
    + apply (P_snoc c _ Hc), (IH Hw _ _ H).
Qed.

Lemma kept_app_spaces w s :
  forallb is_space w = true ->
  forall f cur,
  Exists P (splitlines_from f cur (s ++ w)) -> Exists P (splitlines_from f cur s).
Proof using P_nil P_snoc.
  intros Hw. induction s as [|a s IH]; intros f cur H.
  - simpl app in H. rewrite splitlines_from_nil.
    apply kept_pending, (kept_spaces_after w Hw f cur H).
  - change ((a :: s) ++ w) with (a :: (s ++ w)) in H.
    rewrite splitlines_from_cons in H |- *.
    destruct (f && Ascii.eqb a LF); [apply IH, H|].
    destruct (is_linebreak a); [|apply IH, H].
    rewrite Exists_cons in H |- *.
    destruct H as [H|H]; [left; exact H | right; apply IH, H].
Qed.

Lemma kept_rstrip s :
  Exists P (str_splitlines s) -> Exists P (str_splitlines (str_rstrip s)).
Proof using P_nil P_snoc.
  destruct (rstrip_split s) as (w & Hs & Hw). intros H.
  rewrite Hs in H. unfold str_splitlines in *.
  apply (kept_app_spaces w _ Hw _ _ H).
Qed.

(** Trimming the text keeps the property on some line. *)
Lemma kept_strip s :
  Exists P (str_splitlines s) -> Exists P (str_splitlines (str_strip s)).
Proof using P_nil P_cons P_snoc.
  intros H. unfold str_strip. apply kept_lstrip, kept_rstrip, H.
Qed.

(** The lines of a text when the line being read loses a marker token. *)
Lemma kept_marker_pending b :
  forall f cur cur',
  (forall l, P (cur' ++ l) -> P (cur ++ l)) ->
  Exists P (splitlines_from f cur' b) -> Exists P (splitlines_from f cur b).
Proof using P_nil.
  induction b as [|c b IH]; intros f cur cur' Hcur H.
  - rewrite splitlines_from_nil. apply kept_pending.
    apply (kept_pending cur') in H.
    specialize (Hcur []). rewrite !app_nil_r in Hcur. auto.
  - rewrite splitlines_from_cons in H |- *.
    destruct (f && Ascii.eqb c LF); [apply (IH _ _ cur'); assumption|].
    destruct (is_linebreak c).
    + rewrite Exists_cons in H |- *. destruct H as [H|H]; [left | right; exact H].
      specialize (Hcur []). rewrite !app_nil_r in Hcur. auto.
    + apply (IH _ _ (cur' ++ [c])); [|exact H].
      intros l. rewrite <- !app_assoc. apply Hcur.
Qed.

(** Taking one marker token out of a text keeps the property on some
    line. *)
Lemma kept_drop_marker k a b :
  forall f cur, (f = true -> cur = []) ->
  Exists P (splitlines_from f cur (a ++ marker_text k ++ b)) ->
  Exists P (splitlines_from f cur (a ++ b)).
Proof using P_nil P_marker.
  induction a as [|c a IH]; intros f cur Hf H.
  - simpl app in *. destruct f.
    + rewrite (Hf eq_refl) in *. rewrite splitlines_after_cr_marker in H.
      apply kept_after_cr.
      rewrite splitlines_from_marker in H.
      revert H. apply kept_marker_pending. intros l. apply (P_marker k []).
    + rewrite splitlines_from_marker in H. revert H. apply kept_marker_pending.
      intros l. rewrite <- app_assoc. apply P_marker.
  - change ((c :: a) ++ marker_text k ++ b) with (c :: (a ++ marker_text k ++ b)) in H.
    change ((c :: a) ++ b) with (c :: (a ++ b)).
    rewrite splitlines_from_cons in H |- *.
    destruct (f && Ascii.eqb c LF) eqn:E.
    + apply IH; [discriminate | exact H].
    + destruct (is_linebreak c).
      * rewrite Exists_cons in H |- *.
        destruct H as [H|H]; [left; exact H | right].
        apply (IH _ _ (fun _ => eq_refl) H).
      * apply IH; [discriminate | exact H].
Qed.

(** One [replace] keeps the property on some line. *)
Lemma kept_replace k n :
  forall s a, length s <= n ->
  Exists P (str_splitlines (a ++ s)) ->
  Exists P (str_splitlines (a ++ replace_from (marker_text k) [] 0 s)).
Proof using P_nil P_marker.
  induction n as [|n IH]; intros s a Hn H.
  - destruct s; [exact H | simpl in Hn; lia].
  - destruct s as [|c s]; [exact H|].
    rewrite replace_from_unfold.
    destruct (str_startswith (c :: s) (marker_text k)) eqn:E.
    + apply startswith_split in E as [r Hr].
      assert (length r <= n) as Hlen.
      { apply (f_equal (@length ascii)) in Hr. rewrite length_app in Hr.
        destruct (marker_text_cons k) as [m Hm]. rewrite Hm in Hr.
        simpl in Hr, Hn. lia. }
      pose proof (replace_marker_same k r) as Hsame.
      rewrite <- Hr, replace_from_unfold in Hsame.
      rewrite Hr in Hsame at 1. rewrite startswith_app in Hsame.
      rewrite Hsame. apply IH; [exact Hlen|].
      rewrite Hr in H. unfold str_splitlines in *.
      apply (kept_drop_marker k a r false []); [discriminate | exact H].
    + change (a ++ c :: replace_from (marker_text k) [] 0 s)
        with (a ++ [c] ++ replace_from (marker_text k) [] 0 s).
      rewrite app_assoc. apply IH; [simpl in Hn; lia|].
      rewrite <- app_assoc. exact H.
Qed.

Lemma kept_str_replace k s :
  Exists P (str_splitlines s) ->
  Exists P (str_splitlines (str_replace (marker_text k) [] s)).
Proof using P_nil P_marker.
  intros H. rewrite replace_marker_unfold.
  apply (kept_replace k (length s) s []); [lia | exact H].
Qed.

(** The sanitizer keeps the property on some line. *)
Lemma kept_strip_markers s :
  Exists P (str_splitlines s) -> Exists P (str_splitlines (strip_markers s)).
Proof using P_nil P_cons P_snoc P_marker.
  intros H. rewrite strip_markers_unfold. apply kept_strip.
  do 4 apply kept_str_replace. exact H.
Qed.

End KeptLines.

(** The sanitizer keeps a [title:] line. *)
Lemma exists_title_strip_markers s :
  existsb is_title_line (str_splitlines s) = true ->
  existsb is_title_line (str_splitlines (strip_markers s)) = true.
Proof.
  rewrite !existsb_exists, <- !List.Exists_exists.
  apply (kept_strip_markers (fun l => is_title_line l = true)).
  - rewrite title_line_nil. discriminate.
  - intros c l Hc. unfold is_title_line.
    rewrite strip_cons_space by assumption. auto.
  - intros c l Hc. unfold is_title_line.
    rewrite strip_snoc_space by assumption. auto.
  - apply title_line_drop_marker.
Qed.

(** * The routes *)

Lemma generate_answer story_prompt model req out :
  call_gemini model (story_prompt (inspiration req) (tone req)) = Ok out ->
  generate story_prompt model req = answer out.
Proof.
  intros H. unfold generate, answer. rewrite H. simpl.
  destruct (falsy out); [reflexivity|].
  destruct (parse_gemini_output out) as [[title story_raw]|e]; reflexivity.
Qed.

Lemma revise_answer revision_prompt model req out :
  call_gemini model (revision_prompt (original_story req) (feedback req)) = Ok out ->
  revise revision_prompt model req = answer out.
Proof.
  intros H. unfold revise, answer. rewrite H. simpl.
  destruct (falsy out); [reflexivity|].
  destruct (parse_gemini_output out) as [[title story_raw]|e]; reflexivity.
Qed.

Lemma call_gemini_reply model prompt text :
  model prompt = Reply text ->
  call_gemini model prompt = Ok (str_strip (default [] text)).
Proof. intros H. unfold call_gemini. rewrite H. reflexivity. Qed.

Lemma call_gemini_failure model prompt error_msg :
  model prompt = Failure error_msg ->
  call_gemini model prompt = Raise (Exception (failure_message error_msg)).
Proof. intros H. unfold call_gemini. rewrite H. reflexivity. Qed.

Lemma generate_respond story_prompt model req :
  generate story_prompt model req =
  respond (model (story_prompt (inspiration req) (tone req))).
Proof.
  destruct (model (story_prompt (inspiration req) (tone req)))
    as [text|error_msg] eqn:E.
  - apply generate_answer, call_gemini_reply, E.
  - unfold generate. rewrite (call_gemini_failure _ _ _ E). reflexivity.
Qed.

Lemma revise_respond revision_prompt model req :
  revise revision_prompt model req =
  respond (model (revision_prompt (original_story req) (feedback req))).
Proof.
  destruct (model (revision_prompt (original_story req) (feedback req)))
    as [text|error_msg] eqn:E.
  - apply revise_answer, call_gemini_reply, E.
  - unfold revise. rewrite (call_gemini_failure _ _ _ E). reflexivity.
Qed.

Lemma respond_blank text :
  forallb is_space (default [] text) = true ->
  respond (Reply text) = empty_response.
Proof.
  intros H. unfold respond, answer. rewrite strip_spaces by assumption. reflexivity.
Qed.

(** A text that is not empty is answered with a story. *)
Lemma answer_story out :
  falsy out = false ->
  exists title story_raw,
    parse_gemini_output out = Ok (title, story_raw) /\
    answer out =
    Response 200
      (story_dict title (if falsy story_raw then out else story_raw)
         (strip_markers (if falsy story_raw then out else story_raw))).
Proof.
  intros H. unfold answer. rewrite H.
  destruct (parse_lines_total (str_splitlines out) [] [] ModeNone) as (t & s & E).
  exists t, s. unfold parse_gemini_output at 1 2. rewrite E. split; reflexivity.
Qed.

(** Without a [story:] line the whole text is the story. *)
Lemma answer_no_story out :
  falsy out = false ->
  existsb is_story_line (str_splitlines out) = false ->
  answer out =
  Response 200
    (story_dict (last_title (str_splitlines out) []) out (strip_markers out)).
Proof.
  intros Hne Hs. unfold answer. rewrite Hne.
  unfold parse_gemini_output. rewrite parse_lines_no_story by assumption.
  reflexivity.
Qed.

Lemma respond_no_story text :
  falsy (str_strip text) = false ->
  existsb is_story_line (str_splitlines text) = false ->
  respond (Reply (Some text)) =
  Response 200
    (story_dict (last_title (str_splitlines (str_strip text)) [])
       (str_strip text) (strip_markers (str_strip text))).
Proof.
  intros Hne Hs. unfold respond. simpl default.
  apply answer_no_story; [exact Hne|]. rewrite story_lines_strip. exact Hs.
Qed.

(** A text with a [title:] line is not blank. *)
Lemma title_line_not_blank text :
  existsb is_title_line (str_splitlines text) = true ->
  falsy (str_strip text) = false.
Proof.
  intros H. rewrite <- title_lines_strip in H.
  destruct (str_strip text); [discriminate | reflexivity].
Qed.

Lemma dom_story_dict title story_raw story_clean :
  dom (story_dict title story_raw story_clean) =
  ({["title"; "story_raw"; "story_clean"]} : gset string).
Proof.
  unfold story_dict. rewrite !dom_insert_L, dom_singleton_L. set_solver.
Qed.

Lemma dom_error_dict message :
  dom (error_dict message) = ({["error"]} : gset string).
Proof. unfold error_dict. apply dom_singleton_L. Qed.

Lemma respond_payload reply :
  match reply with
  | Failure _ => error_payload (respond reply)
  | Reply text =>
      if falsy (str_strip (default [] text))
      then error_payload (respond reply)
      else success_payload (respond reply)
  end.
Proof.
  destruct reply as [text|error_msg].
  - destruct (falsy (str_strip (default [] text))) eqn:E.
    + unfold respond, answer. rewrite E. split; [reflexivity | apply dom_error_dict].
    + unfold respond. destruct (answer_story _ E) as (t & s & _ & ->).
      split; [reflexivity | apply dom_story_dict].
  - split; [reflexivity | apply dom_error_dict].
Qed.

(** A response with status 200 has the sanitizer's output as clean story. *)
Lemma respond_success reply :
  status_code (respond reply) = 200 ->
  exists title story_raw,
    respond reply =
    Response 200 (story_dict title story_raw (strip_markers story_raw)).
Proof.
  destruct reply as [text|error_msg]; [|discriminate].
  unfold respond. destruct (falsy (str_strip (default [] text))) eqn:E.
  - unfold answer. rewrite E. discriminate.
  - destruct (answer_story _ E) as (t & s & _ & ->). eauto.
Qed.

(** * C1 and C2: the sanitizer *)

(** C1, as stated, fails: [replace] is applied once per marker, one marker
    after the other, and removing one token can bring the two halves of
    another together.  From the reply [[TWIST[TWIST2]1]] the sanitizer,
    and with it the [story_clean] field of a successful [generate]
    response, gives [[TWIST1]]. *)
Lemma strip_markers_leaves_marker :
  strip_markers (lit "[TWIST[TWIST2]1]") = lit "[TWIST1]" /\
  contains_marker (strip_markers (lit "[TWIST[TWIST2]1]")) = true /\
  generate no_prompt (replies (lit "[TWIST[TWIST2]1]")) a_generate_request =
    Response 200 (story_dict [] (lit "[TWIST[TWIST2]1]") (lit "[TWIST1]")).
Proof. repeat split; vm_compute; reflexivity. Qed.

(** C1 (amended): when [story_raw] is a text without any of the four
    marker tokens into which marker tokens were put, at any places and in
    any number, the sanitizer gives that text trimmed, and its output
    contains none of the four tokens.  The [story_clean] field of a
    successful [generate] or [revise] response is the sanitizer's output
    for its [story_raw] field. *)
Theorem strip_markers_clean :
  (forall ps : list piece,
     contains_marker (without_markers ps) = false ->
     strip_markers (with_markers ps) = str_strip (without_markers ps) /\
     contains_marker (strip_markers (with_markers ps)) = false) /\
  (forall story_prompt revision_prompt model greq rreq,
     (status_code (generate story_prompt model greq) = 200 ->
      exists title story_raw,
        generate story_prompt model greq =
        Response 200 (story_dict title story_raw (strip_markers story_raw))) /\
     (status_code (revise revision_prompt model rreq) = 200 ->
      exists title story_raw,
        revise revision_prompt model rreq =
        Response 200 (story_dict title story_raw (strip_markers story_raw)))).
Proof.
  split.
  - intros ps H.
    assert (strip_markers (with_markers ps) = str_strip (without_markers ps)) as E.
    { rewrite strip_markers_unfold, replace_all_with_markers by assumption.
      reflexivity. }
    split; [exact E|]. rewrite E. apply contains_marker_strip, H.
  - intros sp rp model greq rreq.
    rewrite generate_respond, revise_respond. split; apply respond_success.
Qed.

Lemma strip_markers_clean_witness :
  (strip_markers (with_markers
     [Tok M1; Chr "a"%char; Chr " "%char; Tok M3; Chr "["%char; Chr "b"%char]) =
   str_strip (lit "a [b") /\
   contains_marker (strip_markers (with_markers
     [Tok M1; Chr "a"%char; Chr " "%char; Tok M3; Chr "["%char; Chr "b"%char])) = false) /\
  exists title story_raw,
    generate no_prompt (replies (lit "[TWIST1]a [TWIST3][b")) a_generate_request =
    Response 200 (story_dict title story_raw (strip_markers story_raw)).
Proof.
  split.
  - apply (proj1 strip_markers_clean
      [Tok M1; Chr "a"%char; Chr " "%char; Tok M3; Chr "["%char; Chr "b"%char]).
    reflexivity.
  - apply (proj1 (proj2 strip_markers_clean no_prompt no_prompt
                    (replies (lit "[TWIST1]a [TWIST3][b"))
                    a_generate_request a_revise_request)).
    reflexivity.
Defined.

(** C2, as stated, fails on the same text: the first pass gives
    [[TWIST1]], the second the empty text. *)
Lemma strip_markers_not_idempotent :
  strip_markers (strip_markers (lit "[TWIST[TWIST2]1]")) <>
  strip_markers (lit "[TWIST[TWIST2]1]").
Proof. vm_compute. discriminate. Qed.

(** C2 (amended): a second pass of the sanitizer changes nothing exactly
    when the first pass left none of the four marker tokens; this is so,
    in particular, for a text without markers into which marker tokens
    were put. *)
Theorem strip_markers_idempotent_iff :
  (forall s : str,
     strip_markers (strip_markers s) = strip_markers s <->
     contains_marker (strip_markers s) = false) /\
  (forall ps : list piece,
     contains_marker (without_markers ps) = false ->
     strip_markers (strip_markers (with_markers ps)) =
     strip_markers (with_markers ps)).
Proof.
  assert (forall s : str, contains_marker (strip_markers s) = false ->
            strip_markers (strip_markers s) = strip_markers s) as Hidem.
  { intros s H. rewrite (strip_markers_absent _ H).
    rewrite strip_markers_unfold. apply strip_idem. }
  split.
  - intros s. split; [|apply Hidem].
    intros H. destruct (contains_marker (strip_markers s)) eqn:E; [|reflexivity].
    apply strip_markers_shorter in E. rewrite H in E. lia.
  - intros ps H. apply Hidem.
    rewrite strip_markers_unfold, replace_all_with_markers by assumption.
    apply contains_marker_strip, H.
Qed.

Lemma strip_markers_idempotent_witness :
  strip_markers (strip_markers (lit " a[TWIST2]b ")) = strip_markers (lit " a[TWIST2]b ") /\
  strip_markers (strip_markers (with_markers [Chr "a"%char; Tok M2; Chr "b"%char])) =
  strip_markers (with_markers [Chr "a"%char; Tok M2; Chr "b"%char]).
Proof.
  split.
  - apply (proj1 strip_markers_idempotent_iff (lit " a[TWIST2]b ")). reflexivity.
  - apply (proj2 strip_markers_idempotent_iff [Chr "a"%char; Tok M2; Chr "b"%char]).
    reflexivity.
Defined.

Lemma error_dict_no_story message :
  error_dict message !! "title" = None /\
  error_dict message !! "story_raw" = None /\
  error_dict message !! "story_clean" = None.
Proof. unfold error_dict. repeat split; apply lookup_singleton_ne; discriminate. Qed.

Lemma failure_message_cases error_msg :
  failure_message error_msg = quota_message \/
  failure_message error_msg = permission_message \/
  failure_message error_msg = invalid_message \/
  failure_message error_msg = lit "Gemini API error: " ++ error_msg.
Proof.
  unfold failure_message.
  repeat match goal with |- context [if ?b then _ else _] => destruct b end; auto.
Qed.

(** * C4: a reply without a [story:] line *)

(** C4: a text without a [story:] line is parsed with an empty body.  When
    the text that [call_gemini] returns is not empty and has no [story:]
    line, the route falls back on the whole of it as [story_raw].  That
    text is the reply of the model trimmed, and trimming neither adds nor
    removes a [story:] line: for a reply that is not blank and has no
    [story:] line, the [story_raw] returned is the reply trimmed. *)
Theorem no_story_line_fallback :
  (forall text : str,
     existsb is_story_line (str_splitlines text) = false ->
     exists title, parse_gemini_output text = Ok (title, [])) /\
  (forall story_prompt revision_prompt model greq rreq (out : str),
     falsy out = false ->
     existsb is_story_line (str_splitlines out) = false ->
     exists title,
       parse_gemini_output out = Ok (title, []) /\
       (call_gemini model (story_prompt (inspiration greq) (tone greq)) = Ok out ->
        generate story_prompt model greq =
        Response 200 (story_dict title out (strip_markers out))) /\
       (call_gemini model (revision_prompt (original_story rreq) (feedback rreq)) =
          Ok out ->
        revise revision_prompt model rreq =
        Response 200 (story_dict title out (strip_markers out)))) /\
  (forall model prompt (text : str),
     model prompt = Reply (Some text) ->
     call_gemini model prompt = Ok (str_strip text) /\
     existsb is_story_line (str_splitlines (str_strip text)) =
     existsb is_story_line (str_splitlines text)) /\
  (forall story_prompt revision_prompt model greq rreq (text : str),
     falsy (str_strip text) = false ->
     existsb is_story_line (str_splitlines text) = false ->
     exists title,
       (model (story_prompt (inspiration greq) (tone greq)) = Reply (Some text) ->
        generate story_prompt model greq =
        Response 200
          (story_dict title (str_strip text) (strip_markers (str_strip text)))) /\
       (model (revision_prompt (original_story rreq) (feedback rreq)) =
          Reply (Some text) ->
        revise revision_prompt model rreq =
        Response 200
          (story_dict title (str_strip text) (strip_markers (str_strip text))))).
Proof.
  split; [|split; [|split]]; cycle 3.
  { intros sp rp model greq rreq text Hne Hs.
    exists (last_title (str_splitlines (str_strip text)) []). split; intros Hm.
    - rewrite generate_respond, Hm. apply respond_no_story; assumption.
    - rewrite revise_respond, Hm. apply respond_no_story; assumption. }
  - intros text H. eexists. unfold parse_gemini_output.
    apply parse_lines_no_story, H.
  - intros sp rp model greq rreq out Hne Hs.
    exists (last_title (str_splitlines out) []). split; [|split].
    + unfold parse_gemini_output. apply parse_lines_no_story, Hs.
    + intros Hm. rewrite (generate_answer _ _ _ _ Hm).
      apply answer_no_story; assumption.
    + intros Hm. rewrite (revise_answer _ _ _ _ Hm).
      apply answer_no_story; assumption.
  - intros model prompt text Hm. split.
    + apply (call_gemini_reply _ _ _ Hm).
    + apply story_lines_strip.
Qed.

Lemma no_story_line_fallback_witness :
  (exists title, parse_gemini_output (lit "Once upon a time.") = Ok (title, [])) /\
  (exists title,
     generate no_prompt (replies (lit " Once upon a time. ")) a_generate_request =
     Response 200
       (story_dict title (lit "Once upon a time.")
          (strip_markers (lit "Once upon a time.")))) /\
  (exists title,
     revise no_prompt (replies (lit " Title: Dawn ")) a_revise_request =
     Response 200
       (story_dict title (lit "Title: Dawn") (strip_markers (lit "Title: Dawn")))) /\
  call_gemini (replies (lit " Once upon a time. ")) [] = Ok (lit "Once upon a time.").
Proof.
  destruct no_story_line_fallback as (Hparse & Hroute & Hcall & _).
  split; [|split; [|split]].
  - apply (Hparse (lit "Once upon a time.")). reflexivity.
  - destruct (Hroute no_prompt no_prompt (replies (lit " Once upon a time. "))
                a_generate_request a_revise_request (lit "Once upon a time.")
                eq_refl eq_refl) as (title & _ & Hg & _).
    exists title. apply Hg. reflexivity.
  - destruct (Hroute no_prompt no_prompt (replies (lit " Title: Dawn "))
                a_generate_request a_revise_request (lit "Title: Dawn")
                eq_refl eq_refl) as (title & _ & _ & Hr).
    exists title. apply Hr. reflexivity.
  - apply (Hcall (replies (lit " Once upon a time. ")) [] (lit " Once upon a time. ")).
    reflexivity.
Defined.

(** * C6: a blank reply *)

(** C6: when the model call succeeds with a text that is empty or only
    white space, [generate] and [revise] answer with status 500 and the
    one field [error] set to [Empty response from model]; the answer has
    no [title], [story_raw] or [story_clean]. *)
Theorem blank_reply_is_error story_prompt revision_prompt model greq rreq text :
  forallb is_space (default [] text) = true ->
  (model (story_prompt (inspiration greq) (tone greq)) = Reply text ->
   generate story_prompt model greq =
     JSONResponse {["error" := lit "Empty response from model"]} 500 /\
   body (generate story_prompt model greq) !! "title" = None /\
   body (generate story_prompt model greq) !! "story_raw" = None /\
   body (generate story_prompt model greq) !! "story_clean" = None) /\
  (model (revision_prompt (original_story rreq) (feedback rreq)) = Reply text ->
   revise revision_prompt model rreq =
     JSONResponse {["error" := lit "Empty response from model"]} 500 /\
   body (revise revision_prompt model rreq) !! "title" = None /\
   body (revise revision_prompt model rreq) !! "story_raw" = None /\
   body (revise revision_prompt model rreq) !! "story_clean" = None).
Proof.
  intros Hblank. split; intros Hm.
  - rewrite generate_respond, Hm, respond_blank by assumption.
    split; [reflexivity | apply error_dict_no_story].
  - rewrite revise_respond, Hm, respond_blank by assumption.
    split; [reflexivity | apply error_dict_no_story].
Qed.

Lemma blank_reply_is_error_witness :
  generate no_prompt (replies [" "%char; LF]) a_generate_request =
    JSONResponse {["error" := lit "Empty response from model"]} 500 /\
  revise no_prompt (replies [" "%char; LF]) a_revise_request =
    JSONResponse {["error" := lit "Empty response from model"]} 500.
Proof.
  destruct (blank_reply_is_error no_prompt no_prompt (replies [" "%char; LF])
              a_generate_request a_revise_request (Some [" "%char; LF]) eq_refl)
    as [Hg Hr].
  split; [apply Hg | apply Hr]; reflexivity.
Defined.

(** * C7: failures *)

(** C7, as stated, fails: the text of a blank reply's error has no kind
    and no colon, and the label before the colon of a failed model call
    is the class name [Exception], the same for a quota failure and for a
    permission failure. *)
Lemma error_text_without_kind :
  generate no_prompt (replies []) a_generate_request =
    JSONResponse {["error" := lit "Empty response from model"]} 500 /\
  str_contains (lit ": ") (lit "Empty response from model") = false /\
  generate no_prompt (fails (lit "429 RATE_LIMIT_EXCEEDED")) a_generate_request =
    JSONResponse
      {["error" := lit "Exception: API quota exceeded. Please check your Google AI Studio quota limits or try again later."]}
      500 /\
  revise no_prompt (fails (lit "403 PERMISSION_DENIED")) a_revise_request =
    JSONResponse
      {["error" := lit "Exception: API key doesn't have permission. Please check your API key in Google AI Studio."]}
      500.
Proof. repeat split; vm_compute; reflexivity. Qed.

(** C7 (amended): every failure of [generate] or [revise] is answered with
    status 500 and a JSON object with the one field [error].  For a failed
    model call its text is [Exception: ] followed by the message that
    [call_gemini] chose for the failure (quota, permission, invalid
    request, or [Gemini API error: ] and the original message); for a
    blank reply it is [Empty response from model].  Any other reply is
    answered with status 200. *)
Theorem failures_are_500 story_prompt revision_prompt model greq rreq :
  match model (story_prompt (inspiration greq) (tone greq)) with
  | Failure error_msg =>
      generate story_prompt model greq =
      JSONResponse {["error" := lit "Exception: " ++ failure_message error_msg]} 500
  | Reply text =>
      if falsy (str_strip (default [] text))
      then generate story_prompt model greq =
           JSONResponse {["error" := lit "Empty response from model"]} 500
      else status_code (generate story_prompt model greq) = 200
  end /\
  match model (revision_prompt (original_story rreq) (feedback rreq)) with
  | Failure error_msg =>
      revise revision_prompt model rreq =
      JSONResponse {["error" := lit "Exception: " ++ failure_message error_msg]} 500
  | Reply text =>
      if falsy (str_strip (default [] text))
      then revise revision_prompt model rreq =
           JSONResponse {["error" := lit "Empty response from model"]} 500
      else status_code (revise revision_prompt model rreq) = 200
  end /\
  forall error_msg,
    failure_message error_msg = quota_message \/
    failure_message error_msg = permission_message \/
    failure_message error_msg = invalid_message \/
    failure_message error_msg = lit "Gemini API error: " ++ error_msg.
Proof.
  assert (forall reply,
    match reply with
    | Failure error_msg =>
        respond reply =
        JSONResponse {["error" := lit "Exception: " ++ failure_message error_msg]} 500
    | Reply text =>
        if falsy (str_strip (default [] text))
        then respond reply =
             JSONResponse {["error" := lit "Empty response from model"]} 500
        else status_code (respond reply) = 200
    end) as H.
  { intros [text|error_msg]; [|reflexivity].
    destruct (falsy (str_strip (default [] text))) eqn:E.
    - unfold respond, answer. rewrite E. reflexivity.
    - unfold respond. destruct (answer_story _ E) as (t & s & _ & ->).
      reflexivity. }
  split; [|split].
  - rewrite generate_respond. apply H.
  - rewrite revise_respond. apply H.
  - apply failure_message_cases.
Qed.

(** * C8: the two payloads *)

(** C8: the answer of [generate] or [revise] is either a success payload,
    with status 200 and exactly the fields [title], [story_raw] and
    [story_clean], or an error payload, with status 500 and the field
    [error] alone; it is the error payload whenever the model call fails
    or its reply is blank, and the success payload otherwise. *)
Theorem payload_is_whole story_prompt revision_prompt model greq rreq :
  (success_payload (generate story_prompt model greq) \/
   error_payload (generate story_prompt model greq)) /\
  (success_payload (revise revision_prompt model rreq) \/
   error_payload (revise revision_prompt model rreq)) /\
  match model (story_prompt (inspiration greq) (tone greq)) with
  | Failure _ => error_payload (generate story_prompt model greq)
  | Reply text =>
      if falsy (str_strip (default [] text))
      then error_payload (generate story_prompt model greq)
      else success_payload (generate story_prompt model greq)
  end /\
  match model (revision_prompt (original_story rreq) (feedback rreq)) with
  | Failure _ => error_payload (revise revision_prompt model rreq)
  | Reply text =>
      if falsy (str_strip (default [] text))
      then error_payload (revise revision_prompt model rreq)
      else success_payload (revise revision_prompt model rreq)
  end.
Proof.
  rewrite generate_respond, revise_respond.
  pose proof (respond_payload (model (story_prompt (inspiration greq) (tone greq)))) as Hg.
  pose proof (respond_payload
                (model (revision_prompt (original_story rreq) (feedback rreq)))) as Hr.
  repeat split; try assumption.
  - destruct (model (story_prompt _ _)) as [text|e]; [|auto].
    destruct (falsy _); auto.
  - destruct (model (revision_prompt _ _)) as [text|e]; [|auto].
    destruct (falsy _); auto.
Qed.

(** * C9: one pipeline for the two routes *)

(** C9: from the same reply of the model, [revise] gives the answer that
    [generate] gives: the same parse, the same fallback on an empty body,
    the same stripping of markers and the same errors. *)
Theorem revise_as_generate story_prompt revision_prompt model greq rreq reply :
  model (story_prompt (inspiration greq) (tone greq)) = reply ->
  model (revision_prompt (original_story rreq) (feedback rreq)) = reply ->
  revise revision_prompt model rreq = generate story_prompt model greq.
Proof.
  intros Hg Hr. rewrite generate_respond, revise_respond, Hg, Hr. reflexivity.
Qed.

Lemma revise_as_generate_witness :
  revise no_prompt
    (replies (formatted (lit "Dawn") (lit "[TWIST1] The sun rose.")))
    a_revise_request =
  generate no_prompt
    (replies (formatted (lit "Dawn") (lit "[TWIST1] The sun rose.")))
    a_generate_request.
Proof.
  apply (revise_as_generate no_prompt no_prompt
           (replies (formatted (lit "Dawn") (lit "[TWIST1] The sun rose.")))
           a_generate_request a_revise_request
           (Reply (Some (formatted (lit "Dawn") (lit "[TWIST1] The sun rose.")))));
    reflexivity.
Defined.

(** * More on lines *)

Lemma no_linebreak_app a b :
  no_linebreak (a ++ b) = no_linebreak a && no_linebreak b.
Proof. apply forallb_app. Qed.

(** No line of a text holds a line boundary. *)
Lemma splitlines_from_no_linebreak s :
  forall f cur,
  no_linebreak cur = true ->
  forallb no_linebreak (splitlines_from f cur s) = true.
Proof.
  induction s as [|c s IH]; intros f cur H.
  - rewrite splitlines_from_nil. destruct cur; [reflexivity|].
    cbn [forallb]. rewrite H. reflexivity.
  - rewrite splitlines_from_cons.
    destruct (f && Ascii.eqb c LF); [apply IH, H|].
    destruct (is_linebreak c) eqn:E.
    + cbn [forallb]. rewrite H, IH; reflexivity.
    + apply IH. rewrite no_linebreak_app, H. unfold no_linebreak.
      cbn [forallb]. rewrite E. reflexivity.
Qed.

Lemma splitlines_no_linebreak s :
  forallb no_linebreak (str_splitlines s) = true.
Proof. apply splitlines_from_no_linebreak. reflexivity. Qed.

(** A line that ends with a carriage return and a line feed. *)
Lemma splitlines_from_line_crlf l cur s :
  no_linebreak l = true ->
  splitlines_from false cur (l ++ CR :: LF :: s) =
  (cur ++ l) :: splitlines_from false [] s.
Proof.
  revert cur. induction l as [|c l IH]; intros cur H.
  - rewrite app_nil_r. reflexivity.
  - simpl in H. apply andb_true_iff in H as [Hc Hl].
    apply negb_true_iff in Hc.
    change ((c :: l) ++ CR :: LF :: s) with (c :: (l ++ CR :: LF :: s)).
    rewrite splitlines_from_cons, Hc. simpl andb. cbv iota.
    rewrite IH by assumption. rewrite <- app_assoc. reflexivity.
Qed.

Lemma unlines_with_cons sep ln ls :
  unlines_with sep (ln :: ls) = (ln ++ sep) ++ unlines_with sep ls.
Proof. reflexivity. Qed.

Lemma splitlines_unlines_app ls rest :
  forallb no_linebreak ls = true ->
  str_splitlines (unlines ls ++ rest) = ls ++ str_splitlines rest.
Proof.
  induction ls as [|l ls IH]; intros H; [reflexivity|].
  simpl in H. apply andb_true_iff in H as [Hl Hls].
  rewrite unlines_cons, <- !app_assoc. unfold str_splitlines in *.
  change ([LF] ++ unlines ls ++ rest) with (LF :: (unlines ls ++ rest)).
  rewrite splitlines_from_line by assumption. rewrite IH by assumption.
  reflexivity.
Qed.

Lemma splitlines_unlines_crlf_app ls rest :
  forallb no_linebreak ls = true ->
  str_splitlines (unlines_with [CR; LF] ls ++ rest) = ls ++ str_splitlines rest.
Proof.
  induction ls as [|l ls IH]; intros H; [reflexivity|].
  simpl in H. apply andb_true_iff in H as [Hl Hls].
  rewrite unlines_with_cons, <- !app_assoc. unfold str_splitlines in *.
  change ([CR; LF] ++ unlines_with [CR; LF] ls ++ rest)
    with (CR :: LF :: (unlines_with [CR; LF] ls ++ rest)).
  rewrite splitlines_from_line_crlf by assumption. rewrite IH by assumption.
  reflexivity.
Qed.

(** * More on the parser *)

(** The loop, as a function of the lines: the title of the last [title:]
    line, and the captured lines put together and trimmed. *)
Lemma parse_lines_captured lines :
  forall title story mode,
  parse_lines lines title story mode =
  Ok (last_title lines title, str_strip (story ++ unlines (captured lines mode))).
Proof.
  induction lines as [|ln rest IH]; intros title story mode.
  - simpl. rewrite app_nil_r. reflexivity.
  - destruct (is_title_line ln) eqn:Et.
    + rewrite parse_lines_title by assumption. rewrite IH. simpl.
      rewrite Et. reflexivity.
    + rewrite parse_lines_cons, Et. simpl. rewrite Et.
      destruct (is_story_line ln); [apply IH|].
      destruct mode; [apply IH|].
      rewrite IH, unlines_cons, !app_assoc. reflexivity.
Qed.

Lemma parse_captured text :
  parse_gemini_output text =
  Ok (last_title (str_splitlines text) [],
      str_strip (unlines (captured (str_splitlines text) ModeNone))).
Proof. unfold parse_gemini_output. apply parse_lines_captured. Qed.

Lemma captured_forallb (P : str -> bool) lines :
  forallb P lines = true ->
  forall mode, forallb P (captured lines mode) = true.
Proof.
  induction lines as [|ln rest IH]; intros H mode; [reflexivity|].
  simpl in H. apply andb_true_iff in H as [Hln Hrest]. simpl.
  destruct (is_title_line ln); [auto|].
  destruct (is_story_line ln); [auto|].
  destruct mode; [auto|]. cbn [forallb]. rewrite Hln. simpl. auto.
Qed.

Lemma captured_body lines :
  forall mode, forallb is_body_line (captured lines mode) = true.
Proof.
  induction lines as [|ln rest IH]; intros mode; [reflexivity|]. simpl.
  destruct (is_title_line ln) eqn:Et; [auto|].
  destruct (is_story_line ln) eqn:Es; [auto|].
  destruct mode; [auto|]. cbn [forallb]. unfold is_body_line at 1.
  rewrite Et, Es. simpl. auto.
Qed.

(** Lines without a [story:] line, met outside the body, capture nothing. *)
Lemma captured_app_no_story ls lines :
  existsb is_story_line ls = false ->
  captured (ls ++ lines) ModeNone = captured lines ModeNone.
Proof.
  induction ls as [|l ls IH]; intros H; [reflexivity|].
  simpl in H. apply orb_false_iff in H as [Hl Hls]. simpl.
  rewrite Hl. destruct (is_title_line l); auto.
Qed.

Lemma forallb_strip (P : ascii -> bool) s :
  forallb P s = true -> forallb P (str_strip s) = true.
Proof.
  intros H. destruct (strip_split s) as (w1 & w2 & Hs).
  rewrite Hs, !forallb_app in H.
  apply andb_true_iff in H as [_ H]. apply andb_true_iff in H as [H _]. exact H.
Qed.

Lemma split_colon1_forallb (P : ascii -> bool) s :
  forallb P s = true -> forallb (forallb P) (split_colon1 s) = true.
Proof.
  induction s as [|c s IH]; intros H; [reflexivity|].
  simpl in H. apply andb_true_iff in H as [Hc Hs].
  rewrite split_colon1_cons. destruct (Ascii.eqb c colon).
  - simpl. rewrite Hs. reflexivity.
  - specialize (IH Hs). destruct (split_colon1 s) as [|a rest].
    + simpl. rewrite Hc. reflexivity.
    + simpl in *. rewrite Hc. exact IH.
Qed.

Lemma nth1_forallb (P : ascii -> bool) (l : list str) :
  forallb (forallb P) l = true -> forallb P (nth 1 l []) = true.
Proof.
  destruct l as [|a [|b l]]; try reflexivity. simpl.
  intros H. apply andb_true_iff in H as [_ H].
  apply andb_true_iff in H as [H _]. exact H.
Qed.

Lemma title_of_shape ln :
  no_linebreak ln = true ->
  str_strip (title_of ln) = title_of ln /\ no_linebreak (title_of ln) = true.
Proof.
  intros H. unfold title_of. split; [apply strip_idem|].
  apply forallb_strip, nth1_forallb, split_colon1_forallb, H.
Qed.

Lemma last_title_shape lines :
  forallb no_linebreak lines = true ->
  forall t, str_strip t = t -> no_linebreak t = true ->
  str_strip (last_title lines t) = last_title lines t /\
  no_linebreak (last_title lines t) = true.
Proof.
  induction lines as [|ln rest IH]; intros H t Ht1 Ht2; [auto|].
  cbn [forallb] in H. apply andb_true_iff in H as [Hln Hrest]. simpl.
  destruct (is_title_line ln); [|auto].
  destruct (title_of_shape ln Hln). auto.
Qed.

Lemma no_linebreak_only_lf l : no_linebreak l = true -> only_lf_breaks l = true.
Proof.
  induction l as [|c l IH]; [reflexivity|]. simpl.
  intros H. apply andb_true_iff in H as [-> Hl]. simpl. auto.
Qed.

Lemma only_lf_unlines ls :
  forallb no_linebreak ls = true -> only_lf_breaks (unlines ls) = true.
Proof.
  induction ls as [|l ls IH]; intros H; [reflexivity|].
  cbn [forallb] in H. apply andb_true_iff in H as [Hl Hls].
  rewrite unlines_cons. unfold only_lf_breaks in *. rewrite !forallb_app.
  fold (only_lf_breaks l). rewrite (no_linebreak_only_lf l Hl), (IH Hls).
  reflexivity.
Qed.

Lemma last_title_none lines :
  existsb is_title_line lines = false ->
  forall t, last_title lines t = t.
Proof.
  induction lines as [|ln rest IH]; intros H t; [reflexivity|].
  simpl in H. apply orb_false_iff in H as [Hln Hrest]. simpl.
  rewrite Hln. auto.
Qed.

Lemma body_lines_no_title ls :
  forallb is_body_line ls = true ->
  existsb is_title_line ls = false /\ existsb is_story_line ls = false.
Proof.
  induction ls as [|l ls IH]; intros H; [auto|].
  cbn [forallb] in H. apply andb_true_iff in H as [Hl Hls].
  unfold is_body_line in Hl. apply negb_true_iff, orb_false_iff in Hl as [Ht Hs].
  simpl. rewrite Ht, Hs. auto.
Qed.

Lemma splitlines_unlines ls :
  forallb no_linebreak ls = true -> str_splitlines (unlines ls) = ls.
Proof.
  intros H. rewrite <- (app_nil_r (unlines ls)).
  rewrite splitlines_unlines_app by assumption. apply app_nil_r.
Qed.

Lemma splitlines_unlines_crlf ls :
  forallb no_linebreak ls = true ->
  str_splitlines (unlines_with [CR; LF] ls) = ls.
Proof.
  intros H. rewrite <- (app_nil_r (unlines_with [CR; LF] ls)).
  rewrite splitlines_unlines_crlf_app by assumption. apply app_nil_r.
Qed.

(** * Properties of the parser *)

Lemma parse_shape text title story_raw :
  parse_gemini_output text = Ok (title, story_raw) ->
  str_strip title = title /\ no_linebreak title = true /\
  str_strip story_raw = story_raw /\ only_lf_breaks story_raw = true.
Proof.
  rewrite parse_captured. intros H. injection H as <- <-.
  pose proof (splitlines_no_linebreak text) as Hlines.
  destruct (last_title_shape _ Hlines [] eq_refl eq_refl) as [H1 H2].
  repeat split; try assumption.
  - apply strip_idem.
  - apply forallb_strip, only_lf_unlines, captured_forallb, Hlines.
Qed.

(** X1: whatever the text, the title that the parser returns has no white
    space at either end and no line boundary, and the body it returns has
    no white space at either end and no line boundary but the line
    feed. *)
Theorem parse_result_shape text title story_raw :
  parse_gemini_output text = Ok (title, story_raw) ->
  str_strip title = title /\ no_linebreak title = true /\
  str_strip story_raw = story_raw /\ only_lf_breaks story_raw = true.
Proof. apply parse_shape. Qed.

Lemma parse_result_shape_witness :
  str_strip (lit "A") = lit "A" /\ no_linebreak (lit "A") = true /\
  str_strip (lit "b" ++ [LF] ++ lit "c") = lit "b" ++ [LF] ++ lit "c" /\
  only_lf_breaks (lit "b" ++ [LF] ++ lit "c") = true.
Proof.
  apply (parse_result_shape
           (lit " title:  A " ++ [CR; LF] ++ lit "STORY: x" ++ [CR] ++
            lit " b" ++ [CR; LF] ++ lit "c " ++ [LF; LF])).
  reflexivity.
Defined.

(** X2: no line of the body that the parser returns starts with [title:]
    or [story:]; parsing that body again gives an empty title and an
    empty body. *)
Theorem parse_body_has_no_directive text title story_raw :
  parse_gemini_output text = Ok (title, story_raw) ->
  existsb is_title_line (str_splitlines story_raw) = false /\
  existsb is_story_line (str_splitlines story_raw) = false /\
  parse_gemini_output story_raw = Ok ([], []).
Proof.
  rewrite parse_captured. intros H. injection H as <- <-.
  pose proof (splitlines_no_linebreak text) as Hlines.
  set (caps := captured (str_splitlines text) ModeNone).
  assert (forallb no_linebreak caps = true) as Hcaps
    by apply (captured_forallb _ _ Hlines).
  destruct (body_lines_no_title caps (captured_body _ _)) as [Ht Hs].
  assert (existsb is_title_line (str_splitlines (str_strip (unlines caps))) = false)
    as Ht' by (rewrite title_lines_strip, splitlines_unlines; assumption).
  assert (existsb is_story_line (str_splitlines (str_strip (unlines caps))) = false)
    as Hs' by (rewrite story_lines_strip, splitlines_unlines; assumption).
  repeat split; try assumption.
  unfold parse_gemini_output. rewrite parse_lines_no_story by assumption.
  rewrite last_title_none by assumption. reflexivity.
Qed.

Lemma parse_body_has_no_directive_witness :
  existsb is_title_line (str_splitlines (lit "b" ++ [LF] ++ lit "c")) = false /\
  existsb is_story_line (str_splitlines (lit "b" ++ [LF] ++ lit "c")) = false /\
  parse_gemini_output (lit "b" ++ [LF] ++ lit "c") = Ok ([], []).
Proof.
  apply (parse_body_has_no_directive
           (lit "Title: A" ++ [LF] ++ lit "Story:" ++ [LF] ++
            lit "b" ++ [LF] ++ lit "c") (lit "A")).
  reflexivity.
Defined.

Lemma last_title_app a b :
  forall t, last_title (a ++ b) t = last_title b (last_title a t).
Proof.
  induction a as [|ln a IH]; intros t; [reflexivity|]. simpl.
  destruct (is_title_line ln); apply IH.
Qed.

Lemma captured_app a b :
  forall m, captured (a ++ b) m = captured a m ++ captured b (mode_after a m).
Proof.
  induction a as [|ln a IH]; intros m; [reflexivity|]. simpl.
  destruct (is_title_line ln); [apply IH|].
  destruct (is_story_line ln); [apply IH|].
  destruct m; [apply IH|]. simpl. rewrite IH. reflexivity.
Qed.

Lemma captured_no_story lines :
  existsb is_story_line lines = false -> captured lines ModeNone = [].
Proof.
  intros H. rewrite <- (app_nil_r lines).
  rewrite captured_app_no_story by assumption. reflexivity.
Qed.

Lemma captured_body_lines b :
  forallb is_body_line b = true ->
  captured b ModeStory = b /\ mode_after b ModeStory = ModeStory.
Proof.
  induction b as [|l b IH]; intros H; [auto|].
  cbn [forallb] in H. apply andb_true_iff in H as [Hl Hb].
  unfold is_body_line in Hl. apply negb_true_iff, orb_false_iff in Hl as [Ht Hs].
  destruct (IH Hb) as [IH1 IH2]. simpl. rewrite Ht, Hs, IH1, IH2. auto.
Qed.

(** X3: whole lines that come before the first [story:] line never reach
    the body: with or without them the parser returns the same body. *)
Theorem preamble_not_in_body ls rest :
  forallb no_linebreak ls = true ->
  existsb is_story_line ls = false ->
  exists title title' story_raw,
    parse_gemini_output (unlines ls ++ rest) = Ok (title, story_raw) /\
    parse_gemini_output rest = Ok (title', story_raw).
Proof.
  intros Hls Hs. rewrite !parse_captured, splitlines_unlines_app by assumption.
  rewrite captured_app_no_story by assumption. eauto.
Qed.

Lemma preamble_not_in_body_witness :
  exists title title' story_raw,
    parse_gemini_output
      (unlines [lit "Sure, here is a tale."; lit "Title: Dawn"] ++
       lit "Story:" ++ [LF] ++ lit "The sun rose.") = Ok (title, story_raw) /\
    parse_gemini_output (lit "Story:" ++ [LF] ++ lit "The sun rose.") =
      Ok (title', story_raw).
Proof.
  apply (preamble_not_in_body [lit "Sure, here is a tale."; lit "Title: Dawn"]
           (lit "Story:" ++ [LF] ++ lit "The sun rose.")); reflexivity.
Defined.

Lemma last_title_story_line ln lines t :
  is_title_line ln = false -> last_title (ln :: lines) t = last_title lines t.
Proof. intros H. simpl. rewrite H. reflexivity. Qed.

Lemma captured_story_line ln lines m :
  is_title_line ln = false -> is_story_line ln = true ->
  captured (ln :: lines) m = captured lines ModeStory.
Proof. intros Ht Hs. simpl. rewrite Ht, Hs. reflexivity. Qed.

(** X4: the last [title:] line of a text gives the title, whatever the
    lines before it, other [title:] lines included. *)
Theorem last_title_line_wins text ls tl ls' :
  str_splitlines text = ls ++ tl :: ls' ->
  is_title_line tl = true ->
  existsb is_title_line ls' = false ->
  exists story_raw,
    parse_gemini_output text = Ok (title_of tl, story_raw).
Proof.
  intros Hlines Ht Hls'. rewrite parse_captured, Hlines.
  rewrite last_title_app. simpl. rewrite Ht.
  rewrite last_title_none by assumption. eauto.
Qed.

Lemma last_title_line_wins_witness :
  exists story_raw,
    parse_gemini_output
      (lit "Title: First" ++ [LF] ++ lit "Story:" ++ [LF] ++ lit "Once." ++ [LF] ++
       lit "TITLE: Second" ++ [CR; LF] ++ lit "The end.") =
    Ok (lit "Second", story_raw).
Proof.
  apply (last_title_line_wins
           (lit "Title: First" ++ [LF] ++ lit "Story:" ++ [LF] ++ lit "Once." ++ [LF] ++
            lit "TITLE: Second" ++ [CR; LF] ++ lit "The end.")
           [lit "Title: First"; lit "Story:"; lit "Once."]
           (lit "TITLE: Second") [lit "The end."]); reflexivity.
Defined.

(** X5: a [title:] line met inside the body ends the body.  When the lines
    of a text are lines without a [story:] line, then a [story:] line,
    then body lines, then a [title:] line, then lines without a [story:]
    line, the body returned is the body lines before that [title:] line;
    that line and the lines after it are left out, and the title is that
    of the last [title:] line. *)
Theorem title_line_ends_body text pre sl b tl after :
  str_splitlines text = pre ++ sl :: b ++ tl :: after ->
  existsb is_story_line pre = false ->
  is_title_line sl = false ->
  is_story_line sl = true ->
  forallb is_body_line b = true ->
  is_title_line tl = true ->
  existsb is_story_line after = false ->
  parse_gemini_output text =
  Ok (last_title after (title_of tl), str_strip (unlines b)).
Proof.
  intros Hlines Hpre Hst Hss Hb Ht Hafter. rewrite parse_captured, Hlines.
  destruct (captured_body_lines b Hb) as [Hcap Hmode].
  destruct (body_lines_no_title b Hb) as [Hnt _].
  rewrite last_title_app, last_title_story_line by assumption.
  rewrite last_title_app, (last_title_none b Hnt).
  rewrite captured_app_no_story, captured_story_line by assumption.
  rewrite captured_app, Hcap, Hmode. simpl. rewrite Ht.
  rewrite captured_no_story by assumption. rewrite app_nil_r. reflexivity.
Qed.

Lemma title_line_ends_body_witness :
  parse_gemini_output
    (lit "Title: T" ++ [LF; LF] ++ lit "Story:" ++ [LF] ++ lit "A" ++ [LF] ++
     lit "Title: B") =
  Ok (lit "B", lit "A").
Proof.
  apply (title_line_ends_body
           (lit "Title: T" ++ [LF; LF] ++ lit "Story:" ++ [LF] ++ lit "A" ++ [LF] ++
            lit "Title: B")
           [lit "Title: T"; []] (lit "Story:") [lit "A"] (lit "Title: B") []);
    reflexivity.
Defined.




Lemma startswith_map_split (f : ascii -> ascii) t :
  forall x, str_startswith (map f x) t = true ->
  exists T r, x = T ++ r /\ map f T = t.
Proof.
  induction t as [|a t IH]; intros x H.
  - exists [], x. auto.
  - destruct x as [|c x]; [discriminate|]. simpl in H.
    apply andb_true_iff in H as [H1 H2]. apply ascii_eqb_true in H1.
    destruct (IH x H2) as (T & r & -> & HT).
    exists (c :: T), r. simpl. rewrite HT, H1. auto.
Qed.

Lemma split_colon1_at_colon a r :
  ~ In colon a -> split_colon1 (a ++ colon :: r) = [a; r].
Proof.
  induction a as [|c a IH]; intros H; [reflexivity|].
  change ((c :: a) ++ colon :: r) with (c :: (a ++ colon :: r)).
  rewrite split_colon1_cons. destruct (Ascii.eqb c colon) eqn:E.
  - apply ascii_eqb_true in E. exfalso. apply H. left. exact E.
  - rewrite IH; [reflexivity|]. intros Hin. apply H. right. exact Hin.
Qed.

Lemma spaces_no_colon w : forallb is_space w = true -> ~ In colon w.
Proof.
  induction w as [|c w IH]; intros H Hin; [destruct Hin|].
  simpl in H. apply andb_true_iff in H as [Hc Hw].
  destruct Hin as [->|Hin]; [discriminate | exact (IH Hw Hin)].
Qed.

Lemma lower_char_not_colon c a :
  lower_char c = a -> a <> colon -> c <> colon.
Proof. intros H Ha ->. apply Ha. rewrite <- H. reflexivity. Qed.

(** The six characters that [lower] turns into [title:]. *)
Lemma lower_title T :
  str_lower T = lit "title:" ->
  exists c T5, T = c :: T5 ++ [colon] /\ is_space c = false /\
               c <> colon /\ ~ In colon T5.
Proof.
  destruct T as [|c1 [|c2 [|c3 [|c4 [|c5 [|c6 [|c7 T]]]]]]]; try discriminate.
  intros H. injection H as H1 H2 H3 H4 H5 H6.
  apply lower_char_colon in H6. subst c6.
  exists c1, [c2; c3; c4; c5]. split; [reflexivity|]. split; [|split].
  - destruct (is_space c1) eqn:E; [|reflexivity].
    rewrite (lower_char_space c1 E) in H1. subst c1.
    vm_compute in E. discriminate.
  - apply (lower_char_not_colon _ _ H1). intros Hc. vm_compute in Hc. discriminate.
  - intros [->|[->|[->|[->|[]]]]];
      [vm_compute in H2 | vm_compute in H3 | vm_compute in H4 | vm_compute in H5];
      discriminate.
Qed.

(** X7: a line is taken for a [title:] line exactly when it is white space,
    then [title:] in any letter case, then anything; the title is what
    follows that colon, trimmed, other colons included. *)
Theorem title_line_form :
  (forall ln,
     is_title_line ln = true <->
     exists w T r,
       ln = w ++ T ++ r /\ forallb is_space w = true /\ str_lower T = lit "title:") /\
  (forall w T r,
     forallb is_space w = true ->
     str_lower T = lit "title:" ->
     title_of (w ++ T ++ r) = str_strip r).
Proof.
  split.
  - intros ln. rewrite title_line_lstrip. split.
    + intros H. destruct (lstrip_split ln) as (w & Hw & Hsp).
      apply startswith_map_split in H as (T & r & HT & Hlow).
      exists w, T, r. rewrite <- HT. auto.
    + intros (w & T & r & -> & Hw & HT).
      rewrite lstrip_app, Hw.
      destruct (lower_title T HT) as (c & T5 & -> & Hc & _).
      simpl str_lstrip. rewrite Hc.
      change (c :: (T5 ++ [colon]) ++ r) with ((c :: T5 ++ [colon]) ++ r).
      unfold str_lower in *. rewrite map_app, HT. apply startswith_app.
  - intros w T r Hw HT.
    destruct (lower_title T HT) as (c & T5 & -> & _ & Hc & HT5).
    unfold title_of.
    replace (w ++ (c :: T5 ++ [colon]) ++ r)
      with ((w ++ c :: T5) ++ colon :: r)
      by (rewrite <- !app_assoc; simpl; rewrite <- app_assoc; reflexivity).
    rewrite split_colon1_at_colon; [reflexivity|].
    intros Hin. apply in_app_or in Hin as [Hin|[Hin|Hin]].
    + exact (spaces_no_colon w Hw Hin).
    + apply Hc. exact Hin.
    + exact (HT5 Hin).
Qed.

Lemma title_line_form_witness :
  (exists w T r,
     [" "%char] ++ lit "TiTlE:" ++ lit " a: b " = w ++ T ++ r /\
     forallb is_space w = true /\ str_lower T = lit "title:") /\
  title_of ([" "%char] ++ lit "TiTlE:" ++ lit " a: b ") = str_strip (lit " a: b ").
Proof.
  split.
  - apply (proj1 (proj1 title_line_form ([" "%char] ++ lit "TiTlE:" ++ lit " a: b "))).
    reflexivity.
  - apply (proj2 title_line_form [" "%char] (lit "TiTlE:") (lit " a: b "));
      reflexivity.
Defined.

(** X8: a text whose lines end with a carriage return and a line feed is
    parsed as the same lines ended with a line feed. *)
Theorem crlf_parsed_as_lf ls :
  forallb no_linebreak ls = true ->
  parse_gemini_output (unlines_with [CR; LF] ls) =
  parse_gemini_output (unlines ls).
Proof.
  intros H. unfold parse_gemini_output.
  rewrite splitlines_unlines_crlf, splitlines_unlines by assumption.
  reflexivity.
Qed.

Lemma crlf_parsed_as_lf_witness :
  parse_gemini_output
    (unlines_with [CR; LF] [lit "Title: Dawn"; []; lit "Story:"; lit "The sun rose."]) =
  parse_gemini_output
    (unlines [lit "Title: Dawn"; []; lit "Story:"; lit "The sun rose."]).
Proof.
  apply (crlf_parsed_as_lf [lit "Title: Dawn"; []; lit "Story:"; lit "The sun rose."]).
  reflexivity.
Defined.

(** X9: no line that [splitlines] returns holds a line boundary, and lines
    without a line boundary, each ended with a line feed or with a
    carriage return and a line feed, are split back into the same
    lines. *)
Theorem splitlines_round_trip :
  (forall s, forallb no_linebreak (str_splitlines s) = true) /\
  (forall ls,
     forallb no_linebreak ls = true ->
     str_splitlines (unlines ls) = ls /\
     str_splitlines (unlines_with [CR; LF] ls) = ls).
Proof.
  split.
  - apply splitlines_no_linebreak.
  - intros ls H. split.
    + apply splitlines_unlines, H.
    + apply splitlines_unlines_crlf, H.
Qed.

Lemma splitlines_round_trip_witness :
  str_splitlines (unlines [lit "a"; []; lit " b "]) = [lit "a"; []; lit " b "] /\
  str_splitlines (unlines_with [CR; LF] [lit "a"; []; lit " b "]) =
  [lit "a"; []; lit " b "].
Proof.
  apply (proj2 splitlines_round_trip [lit "a"; []; lit " b "]). reflexivity.
Defined.

(** * Properties of the model client, the sanitizer and the routes *)

Lemma lstrip_head s c rest : str_lstrip s = c :: rest -> is_space c = false.
Proof.
  induction s as [|a s IH]; [discriminate|]. simpl.
  destruct (is_space a) eqn:E; [exact IH|].
  intros H. injection H as <- _. exact E.
Qed.

Lemma rstrip_length s : length (str_rstrip s) <= length s.
Proof.
  destruct (rstrip_split s) as (w & Hs & _). rewrite Hs at 2.
  rewrite length_app. lia.
Qed.

(** A trimmed text neither starts nor ends with white space. *)
Lemma trimmed_ends s :
  str_strip s = s ->
  (forall c rest, s = c :: rest -> is_space c = false) /\
  (forall init c, s = init ++ [c] -> is_space c = false).
Proof.
  intros H. split.
  - intros c rest Hs. unfold str_strip in H. rewrite Hs in H at 2.
    apply (lstrip_head _ _ _ H).
  - intros init c Hs. destruct (is_space c) eqn:E; [|reflexivity].
    assert (str_rstrip s = s) as Hr.
    { rewrite <- H at 1. unfold str_strip.
      rewrite lstrip_rstrip_comm, rstrip_idem, <- lstrip_rstrip_comm. exact H. }
    rewrite Hs, rstrip_snoc_space in Hr by assumption.
    pose proof (rstrip_length init) as Hlen. rewrite Hr, length_app in Hlen.
    simpl in Hlen. lia.
Qed.

(** X10: the text that [call_gemini] returns is trimmed: it neither starts
    nor ends with a white space character. *)
Theorem call_gemini_trimmed model prompt out :
  call_gemini model prompt = Ok out ->
  str_strip out = out /\
  (forall c rest, out = c :: rest -> is_space c = false) /\
  (forall init c, out = init ++ [c] -> is_space c = false).
Proof.
  unfold call_gemini. destruct (model prompt) as [text|error_msg]; [|discriminate].
  intros H. injection H as <-.
  pose proof (strip_idem (default [] text)) as Hidem.
  split; [exact Hidem | apply trimmed_ends, Hidem].
Qed.

Lemma call_gemini_trimmed_witness :
  str_strip (lit "Once.") = lit "Once." /\
  (forall c rest, lit "Once." = c :: rest -> is_space c = false) /\
  (forall init c, lit "Once." = init ++ [c] -> is_space c = false).
Proof.
  apply (call_gemini_trimmed (replies ([LF] ++ lit "  Once. " ++ [CR; LF])) []).
  reflexivity.
Defined.

Lemma contains_middle p a b : str_contains p (a ++ p ++ b) = true.
Proof. apply contains_app_l, contains_startswith, startswith_app. Qed.

(** X11: [call_gemini] sorts a failure by what its message contains, the
    quota signals first: a message in which [429] or
    [RATE_LIMIT_EXCEEDED] occurs anywhere is raised as the quota
    exception, whatever else it holds; a message with none of the six
    signals is raised with the original message after
    [Gemini API error: ]. *)
Theorem call_gemini_failure_kinds model prompt :
  (forall a b,
     model prompt = Failure (a ++ lit "429" ++ b) ->
     call_gemini model prompt = Raise (Exception quota_message)) /\
  (forall a b,
     model prompt = Failure (a ++ lit "RATE_LIMIT_EXCEEDED" ++ b) ->
     call_gemini model prompt = Raise (Exception quota_message)) /\
  (forall error_msg,
     model prompt = Failure error_msg ->
     str_contains (lit "RATE_LIMIT_EXCEEDED") error_msg = false ->
     str_contains (lit "429") error_msg = false ->
     str_contains (lit "PERMISSION_DENIED") error_msg = false ->
     str_contains (lit "403") error_msg = false ->
     str_contains (lit "INVALID_ARGUMENT") error_msg = false ->
     str_contains (lit "400") error_msg = false ->
     call_gemini model prompt =
     Raise (Exception (lit "Gemini API error: " ++ error_msg))).
Proof.
  split; [|split].
  - intros a b H. rewrite (call_gemini_failure _ _ _ H).
    unfold failure_message. rewrite (contains_middle (lit "429")).
    rewrite orb_true_r. reflexivity.
  - intros a b H. rewrite (call_gemini_failure _ _ _ H).
    unfold failure_message. rewrite (contains_middle (lit "RATE_LIMIT_EXCEEDED")).
    reflexivity.
  - intros error_msg H H1 H2 H3 H4 H5 H6. rewrite (call_gemini_failure _ _ _ H).
    unfold failure_message. rewrite H1, H2, H3, H4, H5, H6. reflexivity.
Qed.

Lemma call_gemini_failure_kinds_witness :
  call_gemini (fails (lit "403 PERMISSION_DENIED after 14290 ms")) [] =
    Raise (Exception quota_message) /\
  call_gemini (fails (lit "connection reset")) [] =
    Raise (Exception (lit "Gemini API error: connection reset")).
Proof.
  destruct (call_gemini_failure_kinds (fails (lit "403 PERMISSION_DENIED after 14290 ms")) [])
    as (Hquota & _ & _).
  destruct (call_gemini_failure_kinds (fails (lit "connection reset")) [])
    as (_ & _ & Hother).
  split.
  - apply (Hquota (lit "403 PERMISSION_DENIED after 1") (lit "0 ms")). reflexivity.
  - apply (Hother (lit "connection reset")); reflexivity.
Defined.

Lemma replace_from_sublist old s :
  forall k, replace_from old [] k s `sublist_of` s.
Proof.
  induction s as [|c s IH]; intros k; [constructor|].
  destruct k as [|k].
  - rewrite replace_from_unfold. destruct (str_startswith (c :: s) old).
    + simpl. apply sublist_cons, IH.
    + apply sublist_skip, IH.
  - simpl. apply sublist_cons, IH.
Qed.

Lemma replace_marker_sublist k s :
  str_replace (marker_text k) [] s `sublist_of` s.
Proof. rewrite replace_marker_unfold. apply replace_from_sublist. Qed.

Lemma strip_sublist s : str_strip s `sublist_of` s.
Proof.
  destruct (strip_split s) as (w1 & w2 & Hs). rewrite Hs at 2.
  apply sublist_inserts_l, sublist_inserts_r. reflexivity.
Qed.

(** X12: the sanitizer only deletes: its output is the input with some
    characters left out, in the same order, and it is trimmed. *)
Theorem strip_markers_only_deletes s :
  strip_markers s `sublist_of` s /\
  length (strip_markers s) <= length s /\
  str_strip (strip_markers s) = strip_markers s.
Proof.
  assert (strip_markers s `sublist_of` s) as H.
  { rewrite strip_markers_unfold.
    etransitivity; [apply strip_sublist|].
    etransitivity; [apply replace_marker_sublist|].
    etransitivity; [apply replace_marker_sublist|].
    etransitivity; [apply replace_marker_sublist|].
    apply replace_marker_sublist. }
  split; [exact H|]. split; [apply sublist_length, H|].
  rewrite strip_markers_unfold. apply strip_idem.
Qed.

Lemma story_dict_lookup title story_raw story_clean :
  story_dict title story_raw story_clean !! "title" = Some title /\
  story_dict title story_raw story_clean !! "story_raw" = Some story_raw /\
  story_dict title story_raw story_clean !! "story_clean" = Some story_clean.
Proof. unfold story_dict. repeat split; by simplify_map_eq. Qed.

(** What a response with status 200 holds. *)
Lemma respond_success_shape reply :
  status_code (respond reply) = 200 ->
  exists title story_raw,
    respond reply =
      Response 200 (story_dict title story_raw (strip_markers story_raw)) /\
    falsy story_raw = false /\ str_strip story_raw = story_raw /\
    str_strip title = title /\ no_linebreak title = true.
Proof.
  destruct reply as [text|error_msg]; [|discriminate].
  unfold respond. destruct (falsy (str_strip (default [] text))) eqn:E.
  - unfold answer. rewrite E. discriminate.
  - destruct (answer_story _ E) as (t & s & Hparse & ->). intros _.
    destruct (parse_shape _ _ _ Hparse) as (Ht1 & Ht2 & Hs1 & _).
    eexists _, _. split; [reflexivity|].
    destruct (falsy s) eqn:Es.
    + repeat split; try assumption. apply strip_idem.
    + repeat split; assumption.
Qed.

(** X13: in a response with status 200 of [generate] or [revise],
    [story_raw] is not empty and is trimmed, [title] is trimmed and holds
    no line boundary, and [story_clean] is the sanitizer's output for
    [story_raw]. *)
Theorem success_response_shape story_prompt revision_prompt model greq rreq :
  (status_code (generate story_prompt model greq) = 200 ->
   exists title story_raw,
     body (generate story_prompt model greq) !! "title" = Some title /\
     body (generate story_prompt model greq) !! "story_raw" = Some story_raw /\
     body (generate story_prompt model greq) !! "story_clean" =
       Some (strip_markers story_raw) /\
     falsy story_raw = false /\ str_strip story_raw = story_raw /\
     str_strip title = title /\ no_linebreak title = true) /\
  (status_code (revise revision_prompt model rreq) = 200 ->
   exists title story_raw,
     body (revise revision_prompt model rreq) !! "title" = Some title /\
     body (revise revision_prompt model rreq) !! "story_raw" = Some story_raw /\
     body (revise revision_prompt model rreq) !! "story_clean" =
       Some (strip_markers story_raw) /\
     falsy story_raw = false /\ str_strip story_raw = story_raw /\
     str_strip title = title /\ no_linebreak title = true).
Proof.
  rewrite generate_respond, revise_respond.
  split; intros H; apply respond_success_shape in H
    as (t & raw & -> & H1 & H2 & H3 & H4);
    destruct (story_dict_lookup t raw (strip_markers raw)) as (L1 & L2 & L3);
    exists t, raw; simpl body; auto 10.
Qed.

Lemma success_response_shape_witness :
  exists title story_raw,
    body (generate no_prompt (replies (lit " Story: x ")) a_generate_request)
      !! "title" = Some title /\
    body (generate no_prompt (replies (lit " Story: x ")) a_generate_request)
      !! "story_raw" = Some story_raw /\
    falsy story_raw = false.
Proof.
  destruct (proj1 (success_response_shape no_prompt no_prompt
                     (replies (lit " Story: x "))
                     a_generate_request a_revise_request) eq_refl)
    as (title & story_raw & H1 & H2 & _ & H4 & _).
  exists title, story_raw. auto.
Defined.

(** X14: a text with none of the four marker tokens is only trimmed by the
    sanitizer, other bracketed tokens included; so when the [story_raw] of
    a response with status 200 has none of the four tokens, its
    [story_clean] is that same text. *)
Theorem clean_is_raw_without_markers :
  (forall s, contains_marker s = false -> strip_markers s = str_strip s) /\
  (forall story_prompt revision_prompt model greq rreq story_raw,
     contains_marker story_raw = false ->
     (status_code (generate story_prompt model greq) = 200 ->
      body (generate story_prompt model greq) !! "story_raw" = Some story_raw ->
      body (generate story_prompt model greq) !! "story_clean" = Some story_raw) /\
     (status_code (revise revision_prompt model rreq) = 200 ->
      body (revise revision_prompt model rreq) !! "story_raw" = Some story_raw ->
      body (revise revision_prompt model rreq) !! "story_clean" = Some story_raw)).
Proof.
  split; [apply strip_markers_absent|].
  intros sp rp model greq rreq raw Hm.
  rewrite generate_respond, revise_respond.
  split; intros H; apply respond_success_shape in H
    as (t & raw' & -> & _ & Htrim & _);
    destruct (story_dict_lookup t raw' (strip_markers raw')) as (_ & L2 & L3);
    simpl body; rewrite L2, L3; intros Hraw; injection Hraw as ->;
    rewrite (strip_markers_absent _ Hm), Htrim; reflexivity.
Qed.

Lemma clean_is_raw_without_markers_witness :
  strip_markers (lit " [TWIST5] and [twist1] ") = str_strip (lit " [TWIST5] and [twist1] ") /\
  body (generate no_prompt (replies (lit "[TWIST5] x")) a_generate_request)
    !! "story_clean" = Some (lit "[TWIST5] x").
Proof.
  split.
  - apply (proj1 clean_is_raw_without_markers (lit " [TWIST5] and [twist1] ")).
    reflexivity.
  - apply (proj1 (proj2 clean_is_raw_without_markers no_prompt no_prompt
                    (replies (lit "[TWIST5] x")) a_generate_request a_revise_request
                    (lit "[TWIST5] x") eq_refl)); reflexivity.
Defined.

(** X15: [strip] removes white space and nothing else: the text is its
    trimmed form between two runs of white space, and the trimmed form
    neither starts nor ends with white space. *)
Theorem strip_removes_white_space s :
  (exists w1 w2,
     s = w1 ++ str_strip s ++ w2 /\
     forallb is_space w1 = true /\ forallb is_space w2 = true) /\
  (forall c rest, str_strip s = c :: rest -> is_space c = false) /\
  (forall init c, str_strip s = init ++ [c] -> is_space c = false).
Proof.
  split.
  - destruct (rstrip_split s) as (w2 & Hs & Hw2).
    destruct (lstrip_split (str_rstrip s)) as (w1 & Hr & Hw1).
    exists w1, w2. unfold str_strip. rewrite app_assoc, <- Hr. auto.
  - apply trimmed_ends, strip_idem.
Qed.

(** X16: replacing a text that is not empty by nothing leaves a text
    unchanged exactly when the replaced text does not occur in it, and
    makes it shorter otherwise. *)
Theorem replace_changes_iff_occurs a old s :
  (str_replace (a :: old) [] s = s <-> str_contains (a :: old) s = false) /\
  (str_contains (a :: old) s = true ->
   length (str_replace (a :: old) [] s) < length s).
Proof.
  change (str_replace (a :: old) [] s) with (replace_from (a :: old) [] 0 s).
  split; [split|].
  - intros H. destruct (str_contains (a :: old) s) eqn:E; [|reflexivity].
    apply replace_from_shorter in E. rewrite H in E. lia.
  - apply replace_from_absent.
  - apply replace_from_shorter.
Qed.

Lemma replace_changes_iff_occurs_witness :
  str_replace (lit "[TWIST1]") [] (lit "a [TWIST2] b") = lit "a [TWIST2] b" /\
  length (str_replace (lit "[TWIST1]") [] (lit "[TWIST1]a[TWIST1]")) <
  length (lit "[TWIST1]a[TWIST1]").
Proof.
  split.
  - apply (proj2 (proj1 (replace_changes_iff_occurs "["%char (lit "TWIST1]")
                           (lit "a [TWIST2] b")))).
    reflexivity.
  - apply (proj2 (replace_changes_iff_occurs "["%char (lit "TWIST1]")
                    (lit "[TWIST1]a[TWIST1]"))).
    reflexivity.
Defined.

Lemma strip_removes_white_space_witness :
  (exists w1 w2,
     [LF] ++ lit "  a b " = w1 ++ str_strip ([LF] ++ lit "  a b ") ++ w2 /\
     forallb is_space w1 = true /\ forallb is_space w2 = true) /\
  is_space "a"%char = false /\ is_space "b"%char = false.
Proof.
  destruct (strip_removes_white_space ([LF] ++ lit "  a b ")) as (H & Hfirst & Hlast).
  split; [exact H|]. split.
  - apply (Hfirst "a"%char (lit " b")). reflexivity.
  - apply (Hlast (lit "a ") "b"%char). reflexivity.
Defined.

(** * C10: the title line in the fallback *)

Lemma rstrip_app_spaces s w :
  forallb is_space w = true -> str_rstrip (s ++ w) = str_rstrip s.
Proof.
  intros Hw. induction s as [|a s IH].
  - simpl. apply rstrip_spaces, Hw.
  - change ((a :: s) ++ w) with (a :: (s ++ w)).
    rewrite !rstrip_unfold, IH. reflexivity.
Qed.

Lemma strip_app_spaces_l w z :
  forallb is_space w = true -> str_strip (w ++ z) = str_strip z.
Proof.
  induction w as [|c w IH]; intros H; [reflexivity|].
  simpl in H. apply andb_true_iff in H as [Hc Hw].
  simpl app. rewrite strip_cons_space by assumption. auto.
Qed.

Lemma strip_app_spaces_r z w :
  forallb is_space w = true -> str_strip (z ++ w) = str_strip z.
Proof. intros H. unfold str_strip. rewrite rstrip_app_spaces by assumption. reflexivity. Qed.

Lemma trimmed_from_refl ln : trimmed_from ln ln.
Proof. exists [], []. rewrite app_nil_r. auto. Qed.

Lemma trimmed_from_strip ln l : trimmed_from ln l -> str_strip ln = str_strip l.
Proof.
  intros (w1 & w2 & -> & H1 & H2).
  rewrite strip_app_spaces_l, strip_app_spaces_r by assumption. reflexivity.
Qed.

Lemma trimmed_from_title_line ln l :
  trimmed_from ln l -> is_title_line l = is_title_line ln.
Proof.
  intros H. unfold is_title_line. rewrite (trimmed_from_strip ln l H). reflexivity.
Qed.

Lemma split_colon1_no_colon s : ~ In colon s -> split_colon1 s = [s].
Proof.
  induction s as [|c s IH]; intros H; [reflexivity|].
  rewrite split_colon1_cons. destruct (Ascii.eqb c colon) eqn:E.
  - apply ascii_eqb_true in E. exfalso. apply H. left. exact E.
  - rewrite IH; [reflexivity|]. intros Hin. apply H. right. exact Hin.
Qed.

(** A text has a first colon or none. *)
Lemma first_colon s :
  (exists a b, s = a ++ colon :: b /\ ~ In colon a) \/ ~ In colon s.
Proof.
  induction s as [|c s IH]; [right; intros []|].
  destruct (Ascii.eqb c colon) eqn:E.
  - apply ascii_eqb_true in E. subst c. left. exists [], s. auto.
  - assert (c <> colon) as Hc by (intros ->; rewrite Ascii.eqb_refl in E; discriminate).
    destruct IH as [(a & b & -> & Ha)|Hn].
    + left. exists (c :: a), b. split; [reflexivity|].
      intros [H|H]; [exact (Hc H) | exact (Ha H)].
    + right. intros [H|H]; [exact (Hc H) | exact (Hn H)].
Qed.

(** White space at the ends of a line does not change the title it sets. *)
Lemma title_of_trimmed ln l : trimmed_from ln l -> title_of ln = title_of l.
Proof.
  intros (w1 & w2 & -> & H1 & H2). unfold title_of.
  destruct (first_colon l) as [(a & b & -> & Ha)|Hn].
  - replace (w1 ++ (a ++ colon :: b) ++ w2) with ((w1 ++ a) ++ colon :: (b ++ w2))
      by (rewrite <- !app_assoc; reflexivity).
    rewrite !split_colon1_at_colon; [|exact Ha|].
    + simpl. apply strip_app_spaces_r, H2.
    + intros Hin. apply in_app_or in Hin as [Hin|Hin];
        [exact (spaces_no_colon w1 H1 Hin) | exact (Ha Hin)].
  - rewrite !split_colon1_no_colon; [reflexivity | exact Hn |].
    intros Hin. apply in_app_or in Hin as [Hin|Hin];
      [exact (spaces_no_colon w1 H1 Hin)|].
    apply in_app_or in Hin as [Hin|Hin];
      [exact (Hn Hin) | exact (spaces_no_colon w2 H2 Hin)].
Qed.

(** A line without white space at its ends has nothing to lose. *)
Lemma trimmed_from_trimmed ln l :
  trimmed_from ln l -> str_strip ln = ln -> l = ln.
Proof.
  intros (w1 & w2 & Hln & H1 & H2) Htrim.
  destruct (trimmed_ends ln Htrim) as [Hfirst Hlast].
  destruct w1 as [|c w1].
  - destruct w2 as [|c w2 _] using rev_ind.
    + rewrite Hln. simpl. rewrite app_nil_r. reflexivity.
    + rewrite forallb_app in H2. apply andb_true_iff in H2 as [_ H2].
      simpl in H2. rewrite andb_true_r in H2.
      rewrite app_nil_l, app_assoc in Hln.
      rewrite (Hlast _ _ Hln) in H2. discriminate.
  - simpl in H1. apply andb_true_iff in H1 as [H1 _].
    rewrite (Hfirst _ _ Hln) in H1. discriminate.
Qed.

Lemma contains_marker_middle k a b : contains_marker (a ++ marker_text k ++ b) = true.
Proof. apply (contains_marker_intro k), contains_middle. Qed.

(** A [title:] line without marker tokens is still a line of the
    sanitizer's output, but for white space at its ends. *)
Lemma kept_title_line ln s :
  is_title_line ln = true ->
  contains_marker ln = false ->
  In ln (str_splitlines s) ->
  exists l, In l (str_splitlines (strip_markers s)) /\ trimmed_from ln l.
Proof.
  intros Ht Hm Hin. apply List.Exists_exists.
  apply (kept_strip_markers (trimmed_from ln)).
  - intros H. rewrite <- (trimmed_from_title_line ln [] H) in Ht. discriminate.
  - intros c l Hc (w1 & w2 & -> & H1 & H2). exists (w1 ++ [c]), w2.
    rewrite <- !app_assoc, forallb_app, H1. simpl. rewrite Hc. auto.
  - intros c l Hc (w1 & w2 & -> & H1 & H2). exists w1, (c :: w2).
    rewrite <- !app_assoc. simpl. rewrite Hc. auto.
  - intros k x y (w1 & w2 & Hln & _). exfalso.
    rewrite Hln, <- !app_assoc, app_assoc in Hm.
    rewrite contains_marker_middle in Hm. discriminate.
  - apply List.Exists_exists. exists ln. split; [exact Hin | apply trimmed_from_refl].
Qed.

(** C10, as stated, fails for [story_clean]: the markers are stripped from
    the whole reply, the [Title:] line included.  From the reply
    [Title: [TWIST1]A] the title is [[TWIST1]A] and [story_clean] is
    [Title: A]: its only line is not the line of the reply, and what
    follows its colon is not the title.  And a [Title:] line that
    stripping makes the first line of the text comes back without the
    white space before it. *)
Lemma title_line_changed_in_story_clean :
  existsb is_title_line (str_splitlines (lit "Title: [TWIST1]A")) = true /\
  existsb is_story_line (str_splitlines (lit "Title: [TWIST1]A")) = false /\
  generate no_prompt (replies (lit "Title: [TWIST1]A")) a_generate_request =
    Response 200
      (story_dict (lit "[TWIST1]A") (lit "Title: [TWIST1]A") (lit "Title: A")) /\
  str_splitlines (lit "Title: A") = [lit "Title: A"] /\
  title_of (lit "Title: A") <> lit "[TWIST1]A" /\
  str_contains (lit "Title: [TWIST1]A") (lit "Title: A") = false /\
  generate no_prompt (replies (lit "[TWIST1]" ++ [LF] ++ lit " Title: x"))
    a_generate_request =
    Response 200
      (story_dict (lit "x") (lit "[TWIST1]" ++ [LF] ++ lit " Title: x")
         (lit "Title: x")) /\
  str_splitlines (lit "Title: x") = [lit "Title: x"] /\
  lit "Title: x" <> lit " Title: x".
Proof. repeat split; vm_compute; congruence. Qed.

(** C10 (amended): when the reply has a [title:] line and no [story:]
    line, the route falls back on the whole reply, trimmed, as
    [story_raw]; [story_raw] then has a [title:] line, and what follows the
    first colon of that line, trimmed, is the [title] field.  [story_clean]
    is [story_raw] with the markers stripped and still has a [title:] line.
    When that line of [story_raw] holds none of the four marker tokens,
    [story_clean] still has it, but for white space at its ends, and what
    follows its first colon, trimmed, is the [title] field; it is the very
    same line when it has no white space at its ends.  When [story_raw]
    holds none of the four marker tokens, [story_clean] is equal to
    [story_raw]. *)
Theorem title_line_kept story_prompt revision_prompt model greq rreq (text : str) :
  existsb is_title_line (str_splitlines text) = true ->
  existsb is_story_line (str_splitlines text) = false ->
  exists title ln,
    In ln (str_splitlines (str_strip text)) /\
    is_title_line ln = true /\
    title = title_of ln /\
    existsb is_title_line (str_splitlines (strip_markers (str_strip text))) = true /\
    (contains_marker ln = false ->
     (exists ln',
        In ln' (str_splitlines (strip_markers (str_strip text))) /\
        trimmed_from ln ln' /\
        is_title_line ln' = true /\
        title_of ln' = title) /\
     (str_strip ln = ln ->
      In ln (str_splitlines (strip_markers (str_strip text))))) /\
    (contains_marker (str_strip text) = false ->
     strip_markers (str_strip text) = str_strip text) /\
    (model (story_prompt (inspiration greq) (tone greq)) = Reply (Some text) ->
     generate story_prompt model greq =
     Response 200
       (story_dict title (str_strip text) (strip_markers (str_strip text)))) /\
    (model (revision_prompt (original_story rreq) (feedback rreq)) =
       Reply (Some text) ->
     revise revision_prompt model rreq =
     Response 200
       (story_dict title (str_strip text) (strip_markers (str_strip text)))).
Proof.
  intros Ht Hs. pose proof (title_line_not_blank text Ht) as Hne.
  rewrite <- title_lines_strip in Ht.
  destruct (last_title_in _ Ht []) as (ln & Hin & Hln & Hlast).
  exists (title_of ln), ln.
  split; [exact Hin|]. split; [exact Hln|]. split; [reflexivity|].
  split; [apply exists_title_strip_markers, Ht|].
  split; [|split; [|split]].
  - intros Hm.
    destruct (kept_title_line ln (str_strip text) Hln Hm Hin) as (l & Hl & Htrim).
    split.
    + exists l. split; [exact Hl|]. split; [exact Htrim|]. split.
      * rewrite (trimmed_from_title_line ln l Htrim). exact Hln.
      * symmetry. apply title_of_trimmed, Htrim.
    + intros Hstrip. rewrite <- (trimmed_from_trimmed ln l Htrim Hstrip). exact Hl.
  - intros Hm. rewrite (strip_markers_absent _ Hm). apply strip_idem.
  - intros Hm. rewrite generate_respond, Hm, respond_no_story by assumption.
    rewrite Hlast. reflexivity.
  - intros Hm. rewrite revise_respond, Hm, respond_no_story by assumption.
    rewrite Hlast. reflexivity.
Qed.

Lemma title_line_kept_witness :
  exists title,
    generate no_prompt
      (replies ([LF] ++ lit "Title: Dawn" ++ [LF] ++ lit "[TWIST1] The sun rose." ++ [LF]))
      a_generate_request =
    Response 200
      (story_dict title
         (lit "Title: Dawn" ++ [LF] ++ lit "[TWIST1] The sun rose.")
         (lit "Title: Dawn" ++ [LF] ++ lit " The sun rose.")) /\
    title = lit "Dawn" /\
    In (lit "Title: Dawn")
       (str_splitlines (lit "Title: Dawn" ++ [LF] ++ lit " The sun rose.")).
Proof.
  destruct (title_line_kept no_prompt no_prompt
              (replies ([LF] ++ lit "Title: Dawn" ++ [LF] ++
                        lit "[TWIST1] The sun rose." ++ [LF]))
              a_generate_request a_revise_request
              ([LF] ++ lit "Title: Dawn" ++ [LF] ++ lit "[TWIST1] The sun rose." ++ [LF])
              eq_refl eq_refl)
    as (title & ln & Hin & Hln & Ht & _ & Hkept & _ & Hg & _).
  assert (ln = lit "Title: Dawn") as ->.
  { destruct Hin as [H|[H|[]]]; [symmetry; exact H|].
    rewrite <- H in Hln. vm_compute in Hln. discriminate. }
  exists title. split; [rewrite (Hg eq_refl); reflexivity|].
  split; [exact Ht|].
  apply (proj2 (Hkept eq_refl) eq_refl).
Defined.
